(** * Kitebot: the Telegram channel adapter (src/telegram-client.ts)

    A shallow embedding of the adapter's three callbacks (the text-message
    handler, the outgoing-queue poll and the typing refresh) and of its
    start-up token check, followed by the properties of the queue protocol
    that the specification states about them.

    Conventions of the embedding:
    - a JavaScript string is the list of its UTF-16 code units;
    - the queue directories are finite maps from file name to file content;
    - [pendingMessages], a JavaScript [Map], is an association list in
      insertion order;
    - a callback is a function in a state-and-exception monad; whatever can
      fail for reasons outside the program (a file-system call, a Telegram
      API call) asks a schedule of failures carried by the state, so that
      every theorem quantified over states covers every pattern of failures;
    - [JSON.parse] and [JSON.stringify] are built-ins of the language and are
      parameters of the development. *)

From Stdlib Require Import ZArith Ascii String.
From stdpp Require Import gmap list strings pretty.

Local Open Scope Z_scope.

(** ** JavaScript strings *)

Abbreviation jsstring := (list N).

Definition str (s : string) : jsstring := N_of_ascii <$> list_ascii_of_string s.

(** [String.prototype.startsWith] and [endsWith]. *)
Fixpoint startsWith (p s : jsstring) : bool :=
  match p, s with
  | [], _ => true
  | a :: p', b :: s' => bool_decide (a = b) && startsWith p' s'
  | _ :: _, [] => false
  end.

Definition endsWith (p s : jsstring) : bool := startsWith (reverse p) (reverse s).

(** [String.prototype.substring(0, n)]. *)
Definition substring0 (n : nat) (s : jsstring) : jsstring := take n s.

(** The code units that [String.prototype.trim] strips: ECMAScript WhiteSpace
    and LineTerminator. *)
Definition isWhiteSpace (c : N) : bool :=
  ((9 <=? c) && (c <=? 13) || (c =? 32) || (c =? 160) || (c =? 5760)
   || (8192 <=? c) && (c <=? 8202) || (c =? 8232) || (c =? 8233)
   || (c =? 8239) || (c =? 8287) || (c =? 12288) || (c =? 65279))%N.

Fixpoint trimStart (s : jsstring) : jsstring :=
  match s with
  | c :: s' => if isWhiteSpace c then trimStart s' else s
  | [] => []
  end.

Definition trim (s : jsstring) : jsstring :=
  reverse (trimStart (reverse (trimStart s))).

(** Matching of one pattern character under the [i] flag (no [u] flag): both
    sides are canonicalised by upper-casing, and a code unit of 128 or more is
    never canonicalised into the ASCII range, so it matches no ASCII pattern
    character. *)
Definition canonicalize (c : N) : N :=
  if ((97 <=? c) && (c <=? 122))%N then (c - 32)%N else c.

Definition ci_eq (pat c : N) : bool := (canonicalize pat =? canonicalize c)%N.

(** [/^[!/]reset$/i.test(s)]: without the [m] flag the anchors are the two
    ends of the input. *)
Definition match_reset (s : jsstring) : bool :=
  match s with
  | [c0; c1; c2; c3; c4; c5] =>
      (ci_eq 33 c0 || ci_eq 47 c0)
      && ci_eq 114 c1 && ci_eq 101 c2 && ci_eq 115 c3
      && ci_eq 101 c4 && ci_eq 116 c5
  | _ => false
  end.

(** Decimal rendering of an integer-valued number ([Number.prototype.toString]
    and the template literal agree with it below 10^21). *)
Definition toString (z : Z) : jsstring := str (pretty z).

(** ** JavaScript values, as [JSON.parse] returns them *)

(** Numbers carry an integer: the program never computes with a parsed
    number, it only compares values with string keys and reads [length]. *)
#[warnings="-register-all"]
Inductive JsValue :=
| JUndefined
| JNull
| JBool (b : bool)
| JNum (n : Z)
| JStr (s : jsstring)
| JArr (items : list JsValue)
| JObj (fields : list (jsstring * JsValue)).

Inductive JsError :=
| SyntaxError            (* JSON.parse on text that is not JSON *)
| TypeError              (* property read on undefined or null *)
| ENOENT                 (* file-system call on a missing file *)
| EIO                    (* any other failure of a file-system call *)
| TelegramError.         (* a rejected Telegram API call *)

Fixpoint assoc {V} (k : jsstring) (l : list (jsstring * V)) : option V :=
  match l with
  | [] => None
  | (k', v) :: l' => if decide (k = k') then Some v else assoc k l'
  end.

(** Property read [v.name] for a name that is not built in: only an object
    literal has it; on [undefined] and [null] the read throws. *)
Definition getProp (v : JsValue) (name : jsstring) : JsError + JsValue :=
  match v with
  | JUndefined | JNull => inl TypeError
  | JObj fields => inr (default JUndefined (assoc name fields))
  | _ => inr JUndefined
  end.

(** Property read [v.length]. *)
Definition getLength (v : JsValue) : JsError + JsValue :=
  match v with
  | JUndefined | JNull => inl TypeError
  | JStr s => inr (JNum (Z.of_nat (length s)))
  | JArr items => inr (JNum (Z.of_nat (length items)))
  | JObj fields => inr (default JUndefined (assoc (str "length") fields))
  | _ => inr JUndefined
  end.

(** ** The data of the adapter *)

(** [interface PendingMessage]. *)
Module PendingMessage.
Record t := mk { chatId : Z; messageId : Z; timestamp : Z }.
End PendingMessage.

(** [interface QueueData]. *)
Module QueueData.
Record t := mk {
  channel : jsstring;
  sender : jsstring;
  senderId : jsstring;
  message : jsstring;
  timestamp : Z;
  messageId : jsstring
}.

(** The object literal handed to [JSON.stringify], keys in source order. *)
Definition toJs (q : t) : JsValue :=
  JObj [ (str "channel", JStr (channel q));
         (str "sender", JStr (sender q));
         (str "senderId", JStr (senderId q));
         (str "message", JStr (message q));
         (str "timestamp", JNum (timestamp q));
         (str "messageId", JStr (messageId q)) ].
End QueueData.

(** [interface ResponseData]: what a well-formed outgoing file parses to. *)
Module ResponseData.
Record t := mk {
  channel : jsstring;
  sender : jsstring;
  message : jsstring;
  originalMessage : jsstring;
  timestamp : Z;
  messageId : jsstring
}.

Definition toJs (r : t) : JsValue :=
  JObj [ (str "channel", JStr (channel r));
         (str "sender", JStr (sender r));
         (str "message", JStr (message r));
         (str "originalMessage", JStr (originalMessage r));
         (str "timestamp", JNum (timestamp r));
         (str "messageId", JStr (messageId r)) ].
End ResponseData.

(** The part of a Telegraf text-message context that the handler reads:
    [ctx.message], [ctx.from] and [ctx.chat]. *)
Record TextMessage := { text : jsstring; message_id : Z }.
Record User := { first_name : jsstring; username : option jsstring }.
Record Chat := { id : Z }.
Record Context := { ctx_message : TextMessage; ctx_from : User; ctx_chat : Chat }.

(** What the handler reads from the clock and the random generator, in source
    order: [Date.now()] inside the id, [Math.random().toString(36).substring(7)],
    then [Date.now()] for the queue entry, the pending entry and the clean-up. *)
Record Readings := {
  now_id : Z;
  random_suffix : jsstring;
  now_queue : Z;
  now_pending : Z;
  now_cleanup : Z
}.

(** ** The world the adapter acts on *)

Inductive Dir := QUEUE_INCOMING | QUEUE_OUTGOING.

(** [path.join(dir, file)] for a queue directory, and the reset flag's path
    [path.join(SCRIPT_DIR, '.kitebot/reset_flag')]. *)
Inductive Path :=
| join (dir : Dir) (file : jsstring)
| resetFlagPath.

Inductive Level := INFO | WARN | ERROR.

(** A log message is kept as the parts of its template literal; the ISO
    time stamp that [log] prefixes is left out. *)
Inductive Piece :=
| Lit (s : jsstring)
| Val (v : JsValue)
| Err (e : JsError).

Definition LogLine : Type := Level * list Piece.

(** Calls of the Telegram API, with their arguments. *)
Inductive ApiCall :=
| SendMessage (chat : Z) (text : JsValue) (reply_to : Z)
| Reply (chat : Z) (text : jsstring)
| SendChatAction (chat : Z) (action : jsstring).

Record State := mkState {
  incoming : gmap jsstring jsstring;
  outgoing : gmap jsstring jsstring;
  reset_flag : option jsstring;
  pendingMessages : list (jsstring * PendingMessage.t);
  logFile : list LogLine;
  (* API calls issued so far, oldest first *)
  sent : list ApiCall;
  (* rejected promises that nothing awaits or catches *)
  unhandled : list ApiCall;
  (* failures to come: each fallible call takes the head, [true] makes it
     fail; an empty schedule lets every call succeed *)
  faults : list bool
}.

Definition set_incoming (f : gmap jsstring jsstring) (s : State) : State :=
  mkState f (outgoing s) (reset_flag s) (pendingMessages s) (logFile s)
          (sent s) (unhandled s) (faults s).
Definition set_outgoing (f : gmap jsstring jsstring) (s : State) : State :=
  mkState (incoming s) f (reset_flag s) (pendingMessages s) (logFile s)
          (sent s) (unhandled s) (faults s).
Definition set_reset_flag (f : option jsstring) (s : State) : State :=
  mkState (incoming s) (outgoing s) f (pendingMessages s) (logFile s)
          (sent s) (unhandled s) (faults s).
Definition set_pendingMessages (p : list (jsstring * PendingMessage.t))
    (s : State) : State :=
  mkState (incoming s) (outgoing s) (reset_flag s) p (logFile s)
          (sent s) (unhandled s) (faults s).
Definition set_logFile (l : list LogLine) (s : State) : State :=
  mkState (incoming s) (outgoing s) (reset_flag s) (pendingMessages s) l
          (sent s) (unhandled s) (faults s).
Definition set_sent (c : list ApiCall) (s : State) : State :=
  mkState (incoming s) (outgoing s) (reset_flag s) (pendingMessages s)
          (logFile s) c (unhandled s) (faults s).
Definition set_unhandled (c : list ApiCall) (s : State) : State :=
  mkState (incoming s) (outgoing s) (reset_flag s) (pendingMessages s)
          (logFile s) (sent s) c (faults s).
Definition set_faults (o : list bool) (s : State) : State :=
  mkState (incoming s) (outgoing s) (reset_flag s) (pendingMessages s)
          (logFile s) (sent s) (unhandled s) o.

(** ** The monad of callbacks: state and exceptions *)

Inductive Completion (A : Type) :=
| Normal (a : A)
| Throw (e : JsError).
Arguments Normal {A} a.
Arguments Throw {A} e.

Definition M (A : Type) : Type := State → Completion A * State.

Definition ret {A} (a : A) : M A := λ s, (Normal a, s).
Definition throw {A} (e : JsError) : M A := λ s, (Throw e, s).
Definition bind {A B} (m : M A) (k : A → M B) : M B :=
  λ s, match m s with
       | (Normal a, s') => k a s'
       | (Throw e, s') => (Throw e, s')
       end.
(** [try { body } catch (error) { handler }]. *)
Definition try_catch {A} (body : M A) (handler : JsError → M A) : M A :=
  λ s, match body s with
       | (Normal a, s') => (Normal a, s')
       | (Throw e, s') => handler e s'
       end.
Definition get {A} (proj : State → A) : M A := λ s, (Normal (proj s), s).
Definition modify (f : State → State) : M unit := λ s, (Normal tt, f s).
Definition lift {A} (r : JsError + A) : M A :=
  match r with inl e => throw e | inr a => ret a end.

Declare Scope js_scope.
Delimit Scope js_scope with js.
Notation "x ← y ; z" := (bind y (λ x, z))
  (at level 20, y at level 100, z at level 200, only parsing) : js_scope.
Notation "' x ← y ; z" := (bind y (λ x, z))
  (at level 20, x pattern, y at level 100, z at level 200, only parsing) : js_scope.
Notation "x ;; z" := (bind x (λ _, z))
  (at level 100, z at level 200, only parsing, right associativity) : js_scope.
Local Open Scope js_scope.

(** [for (const x of xs) body(x)]: an exception leaves the loop. *)
Fixpoint for_of {A} (xs : list A) (body : A → M unit) : M unit :=
  match xs with
  | [] => ret tt
  | x :: xs' => body x;; for_of xs' body
  end.

(** The next entry of the failure schedule. *)
Definition fault : M bool :=
  λ s, match faults s with
       | [] => (Normal false, s)
       | b :: o => (Normal b, set_faults o s)
       end.

(** ** Built-ins: the file system, the log, the Telegram API, [Map] *)

Definition directory (d : Dir) (s : State) : gmap jsstring jsstring :=
  match d with QUEUE_INCOMING => incoming s | QUEUE_OUTGOING => outgoing s end.

Definition set_directory (d : Dir) (f : gmap jsstring jsstring) : State → State :=
  match d with QUEUE_INCOMING => set_incoming f | QUEUE_OUTGOING => set_outgoing f end.

Definition file_content (p : Path) (s : State) : option jsstring :=
  match p with
  | join d file => directory d s !! file
  | resetFlagPath => reset_flag s
  end.

Definition file_store (p : Path) (data : jsstring) (s : State) : State :=
  match p with
  | join d file => set_directory d (<[file := data]> (directory d s)) s
  | resetFlagPath => set_reset_flag (Some data) s
  end.

Definition file_remove (p : Path) (s : State) : State :=
  match p with
  | join d file => set_directory d (delete file (directory d s)) s
  | resetFlagPath => set_reset_flag None s
  end.

(** [fs.readdirSync(dir)]; the order of the names is the map's. *)
Definition readdirSync (d : Dir) : M (list jsstring) :=
  failed ← fault;
  if (failed : bool) then throw EIO
  else get (λ s, (map_to_list (directory d s)).*1).

(** [fs.readFileSync(path, 'utf8')]. *)
Definition readFileSync (p : Path) : M jsstring :=
  failed ← fault;
  if (failed : bool) then throw EIO
  else content ← get (file_content p);
       match content with
       | Some data => ret data
       | None => throw ENOENT
       end.

(** How far a write got before it failed: as many code units as the schedule
    of failures has [true]s next. *)
Fixpoint count_true (schedule : list bool) : nat :=
  match schedule with
  | true :: schedule' => S (count_true schedule')
  | _ => 0%nat
  end.

(** [fs.writeFileSync(path, data)] opens the file, creating or truncating it,
    writes the data and closes it. A failure strikes before the file is
    opened, and nothing changes, or after, and the file is left with what had
    been written of the data by then, possibly nothing; a cut inside a
    character is not told apart from one before it. *)
Definition writeFileSync (p : Path) (data : jsstring) : M unit :=
  failed ← fault;
  if (failed : bool) then
    opened ← fault;
    (if (opened : bool) then
       written ← get (λ s, count_true (faults s));
       modify (λ s, set_faults (drop (S written) (faults s))
                               (file_store p (take written data) s))
     else ret tt);;
    throw EIO
  else modify (file_store p data).

(** [fs.unlinkSync(path)]. *)
Definition unlinkSync (p : Path) : M unit :=
  failed ← fault;
  if (failed : bool) then throw EIO
  else content ← get (file_content p);
       match content with
       | Some _ => modify (file_remove p)
       | None => throw ENOENT
       end.

(** [function log(level, message)]: prints the line and appends it to the log
    file. The append is taken to succeed. *)
Definition log (level : Level) (message : list Piece) : M unit :=
  modify (λ s, set_logFile (logFile s ++ [(level, message)]) s).

(** A Telegram API call returns a promise; the request is issued at once and
    the schedule of failures settles the promise. *)
Inductive Promise := Fulfilled | Rejected (call : ApiCall).

Definition callApi (c : ApiCall) : M Promise :=
  failed ← fault;
  modify (λ s, set_sent (sent s ++ [c]) s);;
  ret (if (failed : bool) then Rejected c else Fulfilled).

(** [await p] inside the async handler. *)
Definition await (p : Promise) : M unit :=
  match p with Fulfilled => ret tt | Rejected _ => throw TelegramError end.

(** [p.catch(() => {})]. *)
Definition catch_ignore (p : Promise) : M unit := ret tt.

(** A promise dropped on the floor: a rejection has no handler. *)
Definition floating (p : Promise) : M unit :=
  match p with
  | Fulfilled => ret tt
  | Rejected c => modify (λ s, set_unhandled (unhandled s ++ [c]) s)
  end.

(** [Map.prototype.get], [set] and [delete] on the insertion-ordered entries. *)
Definition Map_get {V} (k : jsstring) (m : list (jsstring * V)) : option V :=
  assoc k m.

Fixpoint Map_set {V} (k : jsstring) (v : V) (m : list (jsstring * V))
  : list (jsstring * V) :=
  match m with
  | [] => [(k, v)]
  | (k', v') :: m' =>
      if decide (k = k') then (k, v) :: m' else (k', v') :: Map_set k v m'
  end.

Definition Map_delete {V} (k : jsstring) (m : list (jsstring * V))
  : list (jsstring * V) :=
  filter (λ kv, kv.1 ≠ k) m.

(** The same with a key that is any value: the keys of [pendingMessages] are
    strings, and only a string is the same value as a string. *)
Definition Map_get_value {V} (k : JsValue) (m : list (jsstring * V)) : option V :=
  match k with JStr k' => Map_get k' m | _ => None end.

Definition Map_delete_value {V} (k : JsValue) (m : list (jsstring * V))
  : list (jsstring * V) :=
  match k with JStr k' => Map_delete k' m | _ => m end.

(** ** The adapter *)

Section Adapter.

(** [JSON.parse] ([None] when it throws a [SyntaxError]) and
    [JSON.stringify(value, null, 2)]. *)
Variable JSON_parse : jsstring → option JsValue.
Variable JSON_stringify : JsValue → jsstring.

(** [ctx.from.first_name || ctx.from.username || 'Unknown']: an empty or
    missing string is falsy. *)
Definition sender_of (from : User) : jsstring :=
  match first_name from with
  | c :: name => c :: name
  | [] =>
      match username from with
      | Some (c :: name) => c :: name
      | _ => str "Unknown"
      end
  end.

(** [`${Date.now()}_${Math.random().toString(36).substring(7)}`]. *)
Definition newMessageId (r : Readings) : jsstring :=
  toString (now_id r) ++ str "_" ++ random_suffix r.

(** The clean-up loop of the handler, over the entries of the [Map]:
    deleting the entry being visited leaves the others to be visited. *)
Definition cleanup (tenMinutesAgo : Z) : M unit :=
  entries ← get pendingMessages;
  for_of entries (λ '(id, data),
    if PendingMessage.timestamp data <? tenMinutesAgo
    then modify (λ s, set_pendingMessages (Map_delete id (pendingMessages s)) s)
    else ret tt).

(** [bot.on(message('text'), async (ctx) => { ... })]. The two [await]s are
    the handler's only suspension points; the first is its last statement
    and what follows the second reads nothing but [ctx], the clock and
    [pendingMessages]. *)
Definition onText (ctx : Context) (r : Readings) : M unit :=
  try_catch
    (let msg := ctx_message ctx in
     let sender := sender_of (ctx_from ctx) in
     let text := text msg in
     log INFO [Lit (str "Message from "); Lit sender; Lit (str ": ");
               Lit (substring0 50 text); Lit (str "...")];;
     if match_reset (trim text) then
       log INFO [Lit (str "Reset command received")];;
       writeFileSync resetFlagPath (str "reset");;
       p ← callApi (Reply (id (ctx_chat ctx))
              (str "Conversation reset! Next message will start a fresh conversation."));
       await p
     else
       p ← callApi (SendChatAction (id (ctx_chat ctx)) (str "typing"));
       await p;;
       let internalMessageId := newMessageId r in
       let queueData :=
         QueueData.mk (str "telegram") sender (toString (id (ctx_chat ctx)))
                      text (now_queue r) internalMessageId in
       let queueFile :=
         join QUEUE_INCOMING
              (str "telegram_" ++ internalMessageId ++ str ".json") in
       writeFileSync queueFile (JSON_stringify (QueueData.toJs queueData));;
       log INFO [Lit (str "Queued message "); Lit internalMessageId];;
       modify (λ s, set_pendingMessages
                      (Map_set internalMessageId
                         (PendingMessage.mk (id (ctx_chat ctx)) (message_id msg)
                                            (now_pending r))
                         (pendingMessages s)) s);;
       let tenMinutesAgo := now_cleanup r - 10 * 60 * 1000 in
       cleanup tenMinutesAgo)
    (λ error, log ERROR [Lit (str "Message handling error: "); Err error]).

(** The body of the loop of [checkOutgoingQueue] for one file name. *)
Definition processResponseFile (file : jsstring) : M unit :=
  let filePath := join QUEUE_OUTGOING file in
  try_catch
    (content ← readFileSync filePath;
     responseData ← match JSON_parse content with
                    | Some v => ret v
                    | None => throw SyntaxError
                    end;
     internalMessageId ← lift (getProp responseData (str "messageId"));
     responseText ← lift (getProp responseData (str "message"));
     sender ← lift (getProp responseData (str "sender"));
     pending ← get (λ s, Map_get_value internalMessageId (pendingMessages s));
     match pending with
     | Some pending =>
         p ← callApi (SendMessage (PendingMessage.chatId pending) responseText
                                  (PendingMessage.messageId pending));
         floating p;;
         len ← lift (getLength responseText);
         log INFO [Lit (str "Sent response to "); Val sender; Lit (str " (");
                   Val len; Lit (str " chars)")];;
         modify (λ s, set_pendingMessages
                        (Map_delete_value internalMessageId (pendingMessages s)) s);;
         unlinkSync filePath
     | None =>
         log WARN [Lit (str "No pending message for "); Val internalMessageId;
                   Lit (str ", cleaning up")];;
         unlinkSync filePath
     end)
    (λ error, log ERROR [Lit (str "Error processing response file "); Lit file;
                         Lit (str ": "); Err error]).

(** The files of the outgoing directory that are this adapter's. *)
Definition own_file (f : jsstring) : bool :=
  startsWith (str "telegram_") f && endsWith (str ".json") f.

(** [function checkOutgoingQueue()], run every second. *)
Definition checkOutgoingQueue : M unit :=
  try_catch
    (names ← readdirSync QUEUE_OUTGOING;
     let files := filter (λ f, own_file f = true) names in
     for_of files processResponseFile)
    (λ error, log ERROR [Lit (str "Outgoing queue error: "); Err error]).

(** The callback run every four seconds to refresh the typing indicator. *)
Definition refreshTyping : M unit :=
  entries ← get pendingMessages;
  for_of entries (λ '(_, data),
    p ← callApi (SendChatAction (PendingMessage.chatId data) (str "typing"));
    catch_ignore p).

End Adapter.

(** ** Start-up *)

(** How the top level of the script ends: the process exits with a code after
    printing lines on the error stream, or the bot is constructed with the
    token and launched. *)
Inductive Startup :=
| Exited (code : Z) (stderr : list (list Piece))
| Launched (token : jsstring).

(** The top level up to [bot.launch()]: the directories are created, then
    [process.env.TELEGRAM_BOT_TOKEN] is checked ([!token] holds of [undefined]
    and of the empty string). An exception of [mkdirSync] is uncaught: the
    runtime prints it and exits with code 1. *)
Definition main (mkdir_failed : bool) (TELEGRAM_BOT_TOKEN : option jsstring) : Startup :=
  if mkdir_failed then Exited 1 [[Err EIO]]
  else
    match TELEGRAM_BOT_TOKEN with
    | None | Some [] =>
        Exited 1 [[Lit (str "ERROR: TELEGRAM_BOT_TOKEN is not set in .env file")]]
    | Some token =>
        if decide (token = str "your_token_here")
        then Exited 1 [[Lit (str "ERROR: TELEGRAM_BOT_TOKEN is not set in .env file")]]
        else Launched token
    end.

(** * Vocabulary of the properties *)

(** The state a callback leaves behind. *)
Definition run {A} (m : M A) (s : State) : State := (m s).2.

(** Keys are unique in a [Map]; every operation keeps them so. *)
Definition Map_wf {V} (m : list (jsstring * V)) : Prop := NoDup m.*1.

(** What the clean-up loop computes: the entries are visited in order and a
    stale one is deleted from the map. *)
Definition evict (tenMinutesAgo : Z) (entries m : list (jsstring * PendingMessage.t))
  : list (jsstring * PendingMessage.t) :=
  foldl (λ m '(id, data),
           if PendingMessage.timestamp data <? tenMinutesAgo
           then Map_delete id m else m) m entries.

(** An API call that the tracker [pend] addresses: a message sent to the chat
    of one of its entries, as a reply to that entry's message. *)
Definition routed_by (pend : list (jsstring * PendingMessage.t)) (c : ApiCall) : Prop :=
  ∃ k p text, Map_get k pend = Some p
    ∧ c = SendMessage (PendingMessage.chatId p) text (PendingMessage.messageId p).

Section Vocabulary.

Variable JSON_parse : jsstring → option JsValue.

(** The id that a file's content carries, when it parses and has one. *)
Definition carries (content k : jsstring) : Prop :=
  ∃ v, JSON_parse content = Some v
       ∧ getProp v (str "messageId") = inr (JStr k).

(** The loop of [checkOutgoingQueue] as a left fold over the file names. *)
Definition drain (files : list jsstring) (s : State) : State :=
  foldl (λ st f, run (processResponseFile JSON_parse f) st) s files.

End Vocabulary.

(** The files a cycle visits. *)
Definition listing (s : State) : list jsstring :=
  filter (λ f, own_file f = true) (map_to_list (outgoing s)).*1.

(** The step that takes the head of the failure schedule. *)
Definition after_fault (s : State) : State := set_faults (tail (faults s)) s.

(** The warning of the poll about a response that nothing is waiting for. *)
Definition warn_no_pending (k : jsstring) : LogLine :=
  (WARN, [Lit (str "No pending message for "); Val (JStr k);
          Lit (str ", cleaning up")]).

(** The queue entry and the file name that the handler builds. *)
Definition queueData (ctx : Context) (r : Readings) : QueueData.t :=
  QueueData.mk (str "telegram") (sender_of (ctx_from ctx))
               (toString (id (ctx_chat ctx))) (text (ctx_message ctx))
               (now_queue r) (newMessageId r).

Definition queueFile (r : Readings) : jsstring :=
  str "telegram_" ++ newMessageId r ++ str ".json".

Definition pendingEntry (ctx : Context) (r : Readings) : PendingMessage.t :=
  PendingMessage.mk (id (ctx_chat ctx)) (message_id (ctx_message ctx))
                    (now_pending r).

Definition tenMinutesAgo (r : Readings) : Z := now_cleanup r - 10 * 60 * 1000.

Definition reset_reply (ctx : Context) : ApiCall :=
  Reply (id (ctx_chat ctx))
    (str "Conversation reset! Next message will start a fresh conversation.").

Definition typing (chat : Z) : ApiCall := SendChatAction chat (str "typing").

(** ** The adapter as a machine *)

(** The adapter when it starts: empty directories and an empty tracker. *)
Definition fresh_state : State := mkState ∅ ∅ None [] [] [] [] [].

(** What can happen to the adapter: a text message arrives, one of its two
    timers fires, or the world outside (the queue processor, the other
    adapters, an operator) rewrites the files and settles which of the calls
    to come are going to fail. *)
Inductive Event :=
| Text (ctx : Context) (r : Readings)
| PollTimer
| TypingTimer
| Outside (incoming' outgoing' : gmap jsstring jsstring)
          (reset_flag' : option jsstring) (faults' : list bool).

Section Machine.

Variable JSON_parse : jsstring → option JsValue.
Variable JSON_stringify : JsValue → jsstring.

Definition react (e : Event) (s : State) : State :=
  match e with
  | Text ctx r => run (onText JSON_stringify ctx r) s
  | PollTimer => run (checkOutgoingQueue JSON_parse) s
  | TypingTimer => run refreshTyping s
  | Outside i o f fs =>
      set_incoming i (set_outgoing o (set_reset_flag f (set_faults fs s)))
  end.

(** The state after a history of events, oldest first. *)
Definition history (events : list Event) : State :=
  foldl (λ s e, react e s) fresh_state events.

End Machine.

(** ** Whom the adapter talks to *)

(** A chat, and a message of a chat, that a history of events has brought to
    the text handler. *)
Definition known_chat (events : list Event) (chat : Z) : Prop :=
  ∃ ctx r, Text ctx r ∈ events ∧ chat = id (ctx_chat ctx).

Definition known_message (events : list Event) (chat message : Z) : Prop :=
  ∃ ctx r, Text ctx r ∈ events
           ∧ chat = id (ctx_chat ctx) ∧ message = message_id (ctx_message ctx).

(** An API call that goes to a known chat, and when it quotes a message, to a
    known message of that chat. *)
Definition addressed (events : list Event) (c : ApiCall) : Prop :=
  match c with
  | SendMessage chat _ reply_to => known_message events chat reply_to
  | Reply chat _ | SendChatAction chat _ => known_chat events chat
  end.

(** ** Statements that the adapter does not satisfy *)

(** "An entry older than ten minutes is never used to route a reply": at any
    time [now] of a poll, a response for an entry that is by then more than
    ten minutes old brings no message to the entry's chat. *)
Definition stale_entry_never_routes (JSON_parse : jsstring → option JsValue) : Prop :=
  ∀ s k p now file content rd calls,
    Map_get k (pendingMessages s) = Some p →
    PendingMessage.timestamp p < now - 10 * 60 * 1000 →
    outgoing s !! file = Some content →
    JSON_parse content = Some (ResponseData.toJs rd) →
    ResponseData.messageId rd = k →
    sent (run (checkOutgoingQueue JSON_parse) s) = sent s ++ calls →
    ∀ text, SendMessage (PendingMessage.chatId p) text (PendingMessage.messageId p)
            ∉ calls.

(** "The message id is unique per message": two different inbound messages
    never get the same id. *)
Definition message_ids_unique : Prop :=
  ∀ (ctx1 ctx2 : Context) (r1 r2 : Readings),
    ctx1 ≠ ctx2 → newMessageId r1 ≠ newMessageId r2.

(** "Every failed typing-indicator send is logged": a refresh whose first
    send fails leaves a trace in the log. *)
Definition platform_errors_logged : Prop :=
  ∀ s, pendingMessages s ≠ [] → hd false (faults s) = true →
       logFile (run refreshTyping s) ≠ logFile s.

(** ** Sample data *)

Definition sample_response : ResponseData.t :=
  ResponseData.mk (str "telegram") (str "Ann") (str "hi back") (str "hi") 5
                  (str "0_abc").

(** A stand-in for [JSON.parse] on the examples: it knows the document of
    [sample_response], a document that has the id and nothing else and the
    empty object, and rejects every other text. *)
Definition sample_parse (content : jsstring) : option JsValue :=
  if decide (content = str "{response to 0_abc}")
  then Some (ResponseData.toJs sample_response)
  else if decide (content = str "{id 0_abc only}")
  then Some (JObj [(str "messageId", JStr (str "0_abc"))])
  else if decide (content = str "{}")
  then Some (JObj [])
  else None.

(** A stand-in for [JSON.stringify] on the examples: it renders a queue
    entry by its sender and its text. *)
Definition sample_stringify (v : JsValue) : jsstring :=
  match getProp v (str "sender"), getProp v (str "message") with
  | inr (JStr who), inr (JStr what) => who ++ str ": " ++ what
  | _, _ => []
  end.

Definition ann (what : string) : Context :=
  Build_Context (Build_TextMessage (str what) 7)
                (Build_User (str "Ann") None) (Build_Chat 42).

Definition bob (what : string) : Context :=
  Build_Context (Build_TextMessage (str what) 8)
                (Build_User [] (Some (str "bob_k"))) (Build_Chat (-100)).

(** Both clocks and the random suffix as they are when the adapter starts at
    the epoch: the id is [0_abc]. *)
Definition at_epoch : Readings := Build_Readings 0 (str "abc") 0 0 0.

(** Eleven minutes later. *)
Definition eleven_minutes_later : Readings :=
  Build_Readings 660000 (str "xyz") 660000 660000 660000.

(** Ann's message of the epoch is pending. *)
Definition ann_waits : State :=
  set_pendingMessages [(str "0_abc", PendingMessage.mk 42 7 0)] fresh_state.

(** ... and the processor has written the response. *)
Definition ann_answered : State :=
  set_outgoing {[ str "telegram_0_abc.json" := str "{response to 0_abc}" ]} ann_waits.

(** The response arrives and nothing is pending. *)
Definition orphan_arrived : State :=
  set_outgoing {[ str "telegram_0_abc.json" := str "{response to 0_abc}" ]} fresh_state.

(** A file that is not JSON arrives. *)
Definition garbage_arrived : State :=
  set_outgoing {[ str "telegram_bad.json" := str "{" ]} ann_waits.

(** A response without its text arrives. *)
Definition textless_arrived : State :=
  set_outgoing {[ str "telegram_0_abc.json" := str "{id 0_abc only}" ]} ann_waits.

(** An empty object arrives. *)
Definition empty_object_arrived : State :=
  set_outgoing {[ str "telegram_0_abc.json" := str "{}" ]} ann_waits.

(** The first call of the Telegram API is going to fail. *)
Definition telegram_down (s : State) : State := set_faults [true] s.

(** A second after the epoch. *)
Definition a_second_later : Readings :=
  Build_Readings 1000 (str "xyz") 1000 1000 1000.

(** The write of the queue file is going to fail, after a typing indicator
    that goes through. *)
Definition disk_full (s : State) : State := set_faults [false; true] s.

(** A response for the Discord adapter lies beside Ann's. *)
Definition discord_beside : State :=
  set_outgoing (<[ str "discord_D1.json" := str "{response to D1}" ]> (outgoing ann_answered))
               ann_answered.

(** The clock is set forward between the reading for the pending entry and
    the reading for the clean-up. *)
Definition clock_jumps : Readings :=
  Build_Readings 0 (str "abc") 1 2 700000.

(** The typing indicator goes through, then the disk fills up three code
    units into the write of the queue file. *)
Definition disk_fills_up (s : State) : State :=
  set_faults [false; true; true; true; true; true] s.

(** * Properties *)

(** ** The [Map] of pending messages *)

Section MapFacts.
Context {V : Type}.
Implicit Types (m : list (jsstring * V)) (k : jsstring).

Lemma Map_get_elem m k v : Map_get k m = Some v → (k, v) ∈ m.
Proof.
  induction m as [|[k' v'] m IH]; simpl; [done|].
  unfold Map_get in *; simpl. destruct (decide (k = k')) as [->|].
  - intros [= ->]. left.
  - intros H. right. auto.
Qed.

Lemma Map_get_delete_eq m k : Map_get k (Map_delete k m) = None.
Proof.
  unfold Map_get, Map_delete.
  induction m as [|[k' v'] m IH]; simpl; [done|].
  rewrite filter_cons; simpl. destruct (decide (k' ≠ k)); simpl; [|done].
  destruct (decide (k = k')); [congruence|done].
Qed.

Lemma Map_get_delete_ne m k k' :
  k ≠ k' → Map_get k (Map_delete k' m) = Map_get k m.
Proof.
  intros Hne. unfold Map_get, Map_delete.
  induction m as [|[k0 v0] m IH]; simpl; [done|].
  rewrite filter_cons; simpl. destruct (decide (k0 ≠ k')) as [Hk|Hk]; simpl.
  - by rewrite IH.
  - destruct (decide (k = k0)); [|done].
    exfalso. apply Hk. congruence.
Qed.

Lemma Map_get_delete_Some m k k' v :
  Map_get k (Map_delete k' m) = Some v → k ≠ k' ∧ Map_get k m = Some v.
Proof.
  destruct (decide (k = k')) as [->|Hne].
  - by rewrite Map_get_delete_eq.
  - by rewrite Map_get_delete_ne.
Qed.

Lemma Map_get_set_eq m k v : Map_get k (Map_set k v m) = Some v.
Proof.
  unfold Map_get. induction m as [|[k' v'] m IH]; simpl.
  - by rewrite decide_True.
  - destruct (decide (k = k')) as [->|Hne]; simpl.
    + by rewrite decide_True.
    + by rewrite decide_False.
Qed.

Lemma Map_get_set_ne m k k' v :
  k ≠ k' → Map_get k (Map_set k' v m) = Map_get k m.
Proof.
  intros Hne. unfold Map_get. induction m as [|[k0 v0] m IH]; simpl.
  - by rewrite decide_False.
  - destruct (decide (k' = k0)) as [->|Hne']; simpl.
    + by rewrite !decide_False.
    + by rewrite IH.
Qed.

Lemma Map_set_keys m k v :
  ∀ k0, k0 ∈ (Map_set k v m).*1 → k0 = k ∨ k0 ∈ m.*1.
Proof.
  induction m as [|[k' v'] m IH]; simpl; intros k0.
  - rewrite list_elem_of_singleton. auto.
  - destruct (decide (k = k')) as [->|Hne]; simpl.
    + rewrite !elem_of_cons. tauto.
    + rewrite !elem_of_cons. intros [->|H]; [tauto|].
      destruct (IH _ H); tauto.
Qed.

Lemma Map_set_wf m k v : Map_wf m → Map_wf (Map_set k v m).
Proof.
  unfold Map_wf. induction m as [|[k' v'] m IH]; simpl; intros Hwf.
  - apply NoDup_singleton.
  - apply NoDup_cons in Hwf as [Hk' Hwf].
    destruct (decide (k = k')) as [->|Hne]; simpl.
    + by apply NoDup_cons.
    + apply NoDup_cons. split; [|auto].
      intros Hin. apply Map_set_keys in Hin as [?|?]; [congruence|done].
Qed.

Lemma Map_delete_wf m k : Map_wf m → Map_wf (Map_delete k m).
Proof.
  unfold Map_wf, Map_delete. induction m as [|[k' v'] m IH]; simpl; [done|].
  intros [Hk' Hwf]%NoDup_cons. rewrite filter_cons. simpl.
  destruct (decide (k' ≠ k)); simpl; [|auto].
  apply NoDup_cons. split; [|auto].
  intros Hin. apply Hk'.
  apply list_elem_of_fmap in Hin as [kv [-> Hin]].
  apply list_elem_of_filter in Hin as [_ Hin].
  apply list_elem_of_fmap. eauto.
Qed.

Lemma Map_wf_get m k v : Map_wf m → (k, v) ∈ m → Map_get k m = Some v.
Proof.
  unfold Map_wf, Map_get. induction m as [|[k' v'] m IH]; simpl.
  - intros _ H. by apply elem_of_nil in H.
  - intros [Hk' Hwf]%NoDup_cons [Heq|Hin]%elem_of_cons.
    + injection Heq as -> ->. by rewrite decide_True.
    + destruct (decide (k = k')) as [->|Hne]; [|auto].
      exfalso. apply Hk'. apply list_elem_of_fmap. by exists (k', v).
Qed.
End MapFacts.

(** ** Strings: the reset pattern and the message id *)

Lemma canonicalize_fixed (c a : N) :
  (a < 97 ∨ 122 < a)%N → (a < 65 ∨ 90 < a)%N → canonicalize c = a → c = a.
Proof.
  unfold canonicalize. intros Ha Hb.
  destruct ((97 <=? c) && (c <=? 122))%N eqn:E; [|done].
  apply andb_true_iff in E as [?%N.leb_le ?%N.leb_le]. lia.
Qed.

Lemma canonicalize_letter (c a : N) :
  (65 ≤ a ≤ 90)%N → canonicalize c = a → c = a ∨ c = (a + 32)%N.
Proof.
  unfold canonicalize. intros Ha.
  destruct ((97 <=? c) && (c <=? 122))%N eqn:E; [|auto].
  apply andb_true_iff in E as [?%N.leb_le ?%N.leb_le]. lia.
Qed.

(** A text that matches the pattern has no white space at either end, so
    trimming leaves it as it is. *)
Lemma match_reset_trim (s : jsstring) : match_reset s = true → trim s = s.
Proof.
  destruct s as [|c0 [|c1 [|c2 [|c3 [|c4 [|c5 [|c6 s]]]]]]]; try done.
  simpl. rewrite !andb_true_iff, orb_true_iff. unfold ci_eq.
  intros [[[[[H0 _] _] _] _] H5].
  assert (c0 = 33 ∨ c0 = 47)%N as Hc0.
  { change (canonicalize 33) with 33%N in H0.
    change (canonicalize 47) with 47%N in H0.
    destruct H0 as [H0|H0]; apply N.eqb_eq in H0; symmetry in H0;
      apply canonicalize_fixed in H0; auto; lia. }
  assert (c5 = 84 ∨ c5 = 116)%N as Hc5.
  { apply N.eqb_eq in H5. symmetry in H5.
    change (canonicalize 116) with 84%N in H5.
    apply canonicalize_letter in H5; [|lia]. simpl in H5. done. }
  unfold trim.
  assert (isWhiteSpace c0 = false) as E0 by (by destruct Hc0 as [-> | ->]).
  assert (isWhiteSpace c5 = false) as E5 by (by destruct Hc5 as [-> | ->]).
  cbn [trimStart]. rewrite E0.
  change (reverse [c0; c1; c2; c3; c4; c5]) with [c5; c4; c3; c2; c1; c0].
  cbn [trimStart]. by rewrite E5.
Qed.

Lemma str_inj : Inj (=) (=) str.
Proof.
  intros a. induction a as [|c a IH]; intros [|d b]; try done.
  unfold str; simpl. intros [= Hc Hs].
  f_equal; [|by apply IH].
  rewrite <-(ascii_N_embedding c), <-(ascii_N_embedding d). by rewrite Hc.
Qed.

Lemma toString_inj : Inj (=) (=) toString.
Proof. intros x y H. by apply (inj pretty), str_inj. Qed.

(** The decimal rendering of a number has no underscore. *)
Lemma pretty_N_go_no_underscore (x : N) (s : string) :
  95%N ∉ str s → 95%N ∉ str (pretty_N_go x s).
Proof.
  revert s. induction (N.lt_wf_0 x) as [x _ IH]; intros s Hs.
  assert (x = 0 ∨ 0 < x)%N as [->|?] by lia.
  - by rewrite pretty_N_go_0.
  - rewrite pretty_N_go_step by done. apply IH; [by apply N.div_lt|].
    unfold str; simpl. rewrite not_elem_of_cons. split; [|done].
    unfold pretty_N_char. by repeat case_match.
Qed.

Lemma toString_no_underscore (z : Z) : 95%N ∉ toString z.
Proof.
  assert (∀ p : positive, 95%N ∉ str (pretty (Npos p))) as Hpos.
  { intros p. unfold pretty, pretty_N. rewrite decide_False by done.
    apply pretty_N_go_no_underscore. unfold str; simpl. apply not_elem_of_nil. }
  unfold toString. destruct z as [|p|p]; simpl.
  - unfold str; simpl. rewrite not_elem_of_cons. split; [done|apply not_elem_of_nil].
  - apply Hpos.
  - unfold pretty, pretty_Z. unfold str; simpl. rewrite not_elem_of_cons.
    split; [done|apply Hpos].
Qed.

Lemma app_pivot_inj {A} (x : A) (l1 l2 r1 r2 : list A) :
  x ∉ l1 → x ∉ l2 → l1 ++ x :: r1 = l2 ++ x :: r2 → l1 = l2 ∧ r1 = r2.
Proof.
  revert l2. induction l1 as [|a l1 IH]; intros [|b l2]; simpl.
  - by intros _ _ [= ->].
  - intros _ Hb [= <- _]. exfalso. apply Hb. left.
  - intros Ha _ [= -> _]. exfalso. apply Ha. left.
  - intros [? Ha]%not_elem_of_cons [? Hb]%not_elem_of_cons [= -> Heq].
    destruct (IH l2 Ha Hb Heq) as [-> ->]. done.
Qed.

(** ** The clean-up of the handler *)

Lemma set_pendingMessages_same s : set_pendingMessages (pendingMessages s) s = s.
Proof. by destruct s. Qed.

Lemma cleanup_loop t entries s :
  for_of entries (λ '(id, data),
      if PendingMessage.timestamp data <? t
      then modify (λ s, set_pendingMessages (Map_delete id (pendingMessages s)) s)
      else ret tt) s
  = (Normal tt, set_pendingMessages (evict t entries (pendingMessages s)) s).
Proof.
  revert s. induction entries as [|[id data] entries IH]; intros s.
  - simpl. by rewrite set_pendingMessages_same.
  - simpl. unfold bind at 1.
    destruct (PendingMessage.timestamp data <? t); simpl.
    + unfold modify at 1. rewrite IH. by destruct s.
    + unfold ret at 1. by rewrite IH.
Qed.

Lemma cleanup_run t s :
  cleanup t s
  = (Normal tt, set_pendingMessages
                  (evict t (pendingMessages s) (pendingMessages s)) s).
Proof. unfold cleanup, bind, get. apply cleanup_loop. Qed.

Lemma evict_get_Some t entries m k p :
  Map_get k (evict t entries m) = Some p → Map_get k m = Some p.
Proof.
  revert m. induction entries as [|[id data] entries IH]; intros m; simpl; [done|].
  intros H%IH. destruct (PendingMessage.timestamp data <? t); [|done].
  by apply Map_get_delete_Some in H as [_ H].
Qed.

Lemma evict_stale t entries m k p :
  (k, p) ∈ entries → PendingMessage.timestamp p < t →
  Map_get k (evict t entries m) = None.
Proof.
  revert m. induction entries as [|[id data] entries IH]; intros m Hin Hp; simpl.
  - by apply elem_of_nil in Hin.
  - apply elem_of_cons in Hin as [[= <- <-]|Hin]; [|by apply IH].
    apply Z.ltb_lt in Hp. rewrite Hp.
    destruct (Map_get k (evict t entries (Map_delete k m))) eqn:E; [|done].
    apply evict_get_Some in E. by rewrite Map_get_delete_eq in E.
Qed.

Lemma evict_fresh t entries m k :
  (∀ p, (k, p) ∈ entries → t ≤ PendingMessage.timestamp p) →
  Map_get k (evict t entries m) = Map_get k m.
Proof.
  revert m. induction entries as [|[id data] entries IH]; intros m Hk; simpl; [done|].
  rewrite IH by (intros p Hp; apply Hk; by right).
  destruct (PendingMessage.timestamp data <? t) eqn:E; [|done].
  apply Map_get_delete_ne. intros ->.
  apply Z.ltb_lt in E. specialize (Hk data (list_elem_of_here _ _)). lia.
Qed.

(** After the clean-up the map holds no entry older than the bound, and an
    entry within the bound is kept. *)
Lemma evict_bound t m k p :
  Map_get k (evict t m m) = Some p →
  Map_get k m = Some p ∧ t ≤ PendingMessage.timestamp p.
Proof.
  intros H. pose proof (evict_get_Some _ _ _ _ _ H) as Hm. split; [done|].
  destruct (Z.le_gt_cases t (PendingMessage.timestamp p)) as [|Hlt]; [done|].
  rewrite (evict_stale t m m k p) in H; [done|by apply Map_get_elem|done].
Qed.

Lemma evict_keeps t m k p :
  Map_wf m → Map_get k m = Some p → t ≤ PendingMessage.timestamp p →
  Map_get k (evict t m m) = Some p.
Proof.
  intros Hwf Hget Hp. rewrite evict_fresh; [done|].
  intros p' Hin. apply (Map_wf_get _ _ _ Hwf) in Hin. congruence.
Qed.

Lemma evict_wf t entries m : Map_wf m → Map_wf (evict t entries m).
Proof.
  revert m. induction entries as [|[id data] entries IH]; intros m Hwf; simpl; [done|].
  apply IH. destruct (_ <? _); [by apply Map_delete_wf|done].
Qed.

(** ** Symbolic execution of a callback *)

Arguments str : simpl never.
Arguments toString : simpl never.
Arguments substring0 : simpl never.
Arguments newMessageId : simpl never.

Ltac exec :=
  cbv beta iota delta
    [try_catch bind readFileSync unlinkSync writeFileSync callApi readdirSync
     floating await catch_ignore log lift get modify ret throw fault
     file_content file_store file_remove directory set_directory].

(** Case analysis on the innermost scrutinee of the goal. *)
Ltac step :=
  match goal with
  | |- context [match ?x with _ => _ end] =>
      lazymatch x with
      | context [match _ with _ => _ end] => fail
      | _ => destruct x eqn:?
      end
  end; simpl in *; simplify_eq.

Lemma set_faults_same s : set_faults (faults s) s = s.
Proof. by destruct s. Qed.

Lemma getProp_messageId rd :
  getProp (ResponseData.toJs rd) (str "messageId")
  = inr (JStr (ResponseData.messageId rd)).
Proof. reflexivity. Qed.

Lemma getProp_message rd :
  getProp (ResponseData.toJs rd) (str "message")
  = inr (JStr (ResponseData.message rd)).
Proof. reflexivity. Qed.

Lemma getProp_sender rd :
  getProp (ResponseData.toJs rd) (str "sender")
  = inr (JStr (ResponseData.sender rd)).
Proof. reflexivity. Qed.

Section Proofs.

Variable JSON_parse : jsstring → option JsValue.
Variable JSON_stringify : JsValue → jsstring.

(** *** One response file *)

(** Whatever the file and the failures, the body of the loop completes
    normally, touches nothing but the file it is given, the entry the file
    names, the log and the API, and logs at least one line. *)
Lemma processResponseFile_step file s : ∃ s',
  processResponseFile JSON_parse file s = (Normal tt, s')
  ∧ incoming s' = incoming s ∧ reset_flag s' = reset_flag s
  ∧ (outgoing s' = outgoing s ∨ outgoing s' = delete file (outgoing s))
  ∧ (pendingMessages s' = pendingMessages s
     ∨ ∃ content k, outgoing s !! file = Some content
         ∧ carries JSON_parse content k
         ∧ pendingMessages s' = Map_delete k (pendingMessages s))
  ∧ (∃ lines, lines ≠ [] ∧ logFile s' = logFile s ++ lines)
  ∧ (∃ calls, sent s' = sent s ++ calls
             ∧ Forall (routed_by (pendingMessages s)) calls)
  ∧ (faults s = [] → faults s' = []).
Proof.
  unfold processResponseFile, carries. exec. simpl.
  repeat step.
  all: repeat match goal with
         | H : Map_get_value ?j _ = Some _ |- _ =>
             destruct j; simpl in H; try discriminate H
         end.
  all: eexists; split; [reflexivity|]; simpl.
  all: split; [done|]; split; [done|].
  all: split; [by (left + right)|].
  all: split; [first [by left | right; eauto 10]|].
  all: split; [rewrite <-?app_assoc; eexists; split; [|reflexivity]; done|].
  all: split; [|congruence].
  all: first [ exists []; by rewrite app_nil_r
             | eexists; split; [reflexivity|];
               repeat constructor; unfold routed_by; eauto ].
Qed.

Lemma processResponseFile_normal file s :
  (processResponseFile JSON_parse file s).1 = Normal tt.
Proof. destruct (processResponseFile_step file s) as (s' & -> & _). done. Qed.

(** A well-formed response whose id the tracker does not know. *)
Lemma processResponseFile_orphan file s content rd :
  faults s = [] →
  outgoing s !! file = Some content →
  JSON_parse content = Some (ResponseData.toJs rd) →
  Map_get (ResponseData.messageId rd) (pendingMessages s) = None →
  processResponseFile JSON_parse file s
  = (Normal tt,
     set_outgoing (delete file (outgoing s))
       (set_logFile
          (logFile s ++ [(WARN, [Lit (str "No pending message for ");
                                 Val (JStr (ResponseData.messageId rd));
                                 Lit (str ", cleaning up")])]) s)).
Proof.
  intros Hf Hfile Hparse Hget.
  unfold processResponseFile. exec. simpl.
  repeat (first [rewrite Hf | rewrite Hfile | rewrite Hparse | rewrite Hget
                | rewrite getProp_messageId | rewrite getProp_message
                | rewrite getProp_sender]; simpl).
  reflexivity.
Qed.

(** A well-formed response whose id the tracker knows. *)
Lemma processResponseFile_matched file s content rd pending :
  faults s = [] →
  outgoing s !! file = Some content →
  JSON_parse content = Some (ResponseData.toJs rd) →
  Map_get (ResponseData.messageId rd) (pendingMessages s) = Some pending →
  processResponseFile JSON_parse file s
  = (Normal tt,
     set_outgoing (delete file (outgoing s))
       (set_pendingMessages
          (Map_delete (ResponseData.messageId rd) (pendingMessages s))
          (set_logFile
             (logFile s ++
                [(INFO, [Lit (str "Sent response to ");
                         Val (JStr (ResponseData.sender rd)); Lit (str " (");
                         Val (JNum (Z.of_nat (length (ResponseData.message rd))));
                         Lit (str " chars)")])])
             (set_sent
                (sent s ++
                   [SendMessage (PendingMessage.chatId pending)
                                (JStr (ResponseData.message rd))
                                (PendingMessage.messageId pending)]) s)))).
Proof.
  intros Hf Hfile Hparse Hget.
  unfold processResponseFile. exec. simpl.
  repeat (first [rewrite Hf | rewrite Hfile | rewrite Hparse | rewrite Hget
                | rewrite getProp_messageId | rewrite getProp_message
                | rewrite getProp_sender]; simpl).
  reflexivity.
Qed.

(** A file that [JSON.parse] rejects: an error line, and the file stays. *)
Lemma processResponseFile_unparseable file s content :
  faults s = [] →
  outgoing s !! file = Some content →
  JSON_parse content = None →
  processResponseFile JSON_parse file s
  = (Normal tt,
     set_logFile
       (logFile s ++ [(ERROR, [Lit (str "Error processing response file ");
                               Lit file; Lit (str ": "); Err SyntaxError])]) s).
Proof.
  intros Hf Hfile Hparse.
  unfold processResponseFile. exec. simpl.
  repeat (first [rewrite Hf | rewrite Hfile | rewrite Hparse]; simpl).
  reflexivity.
Qed.

(** *** One cycle of the poll *)

Lemma for_of_processResponseFile files s :
  for_of files (processResponseFile JSON_parse) s = (Normal tt, drain JSON_parse files s).
Proof.
  revert s. induction files as [|f files IH]; intros s; [done|].
  change (drain JSON_parse (f :: files) s)
    with (drain JSON_parse files (run (processResponseFile JSON_parse f) s)).
  cbn [for_of]. unfold bind, run.
  destruct (processResponseFile_step f s) as (s1 & -> & _). simpl. apply IH.
Qed.

Lemma step_outgoing_Some file s h c :
  outgoing (run (processResponseFile JSON_parse file) s) !! h = Some c →
  outgoing s !! h = Some c.
Proof.
  unfold run.
  destruct (processResponseFile_step file s) as (s1 & -> & _ & _ & [E | E] & _);
    simpl; rewrite E; [done|].
  by intros [_ ?]%lookup_delete_Some.
Qed.

Lemma step_outgoing_other file s h :
  h ≠ file →
  outgoing (run (processResponseFile JSON_parse file) s) !! h = outgoing s !! h.
Proof.
  unfold run. intros Hne.
  destruct (processResponseFile_step file s) as (s1 & -> & _ & _ & [E | E] & _);
    simpl; rewrite E; [done|].
  by apply lookup_delete_ne.
Qed.

Lemma step_pending_Some file s k p :
  Map_get k (pendingMessages (run (processResponseFile JSON_parse file) s)) = Some p →
  Map_get k (pendingMessages s) = Some p.
Proof.
  unfold run.
  destruct (processResponseFile_step file s)
    as (s1 & -> & _ & _ & _ & [E | (c & k' & _ & _ & E)] & _);
    simpl; rewrite E; [done|].
  by intros [_ ?]%Map_get_delete_Some.
Qed.

Lemma step_pending_other file s k :
  (∀ content, outgoing s !! file = Some content → ¬ carries JSON_parse content k) →
  Map_get k (pendingMessages (run (processResponseFile JSON_parse file) s))
  = Map_get k (pendingMessages s).
Proof.
  unfold run. intros Hk.
  destruct (processResponseFile_step file s)
    as (s1 & -> & _ & _ & _ & [E | (c & k' & Hc & Hcar & E)] & _);
    simpl; rewrite E; [done|].
  apply Map_get_delete_ne. intros ->. by apply (Hk c).
Qed.

Lemma step_faults file s :
  faults s = [] → faults (run (processResponseFile JSON_parse file) s) = [].
Proof.
  unfold run.
  by destruct (processResponseFile_step file s)
    as (s1 & -> & _ & _ & _ & _ & _ & _ & ?).
Qed.

Lemma routed_by_mono (pend pend' : list (jsstring * PendingMessage.t)) c :
  (∀ k p, Map_get k pend' = Some p → Map_get k pend = Some p) →
  routed_by pend' c → routed_by pend c.
Proof. intros Hsub (k & p & text & Hget & ->). exists k, p, text. auto. Qed.

(** What a cycle can change: files and entries only disappear, the log
    grows by at least one line per file, and every message sent is
    addressed by an entry that the tracker held when the cycle began. *)
Lemma drain_frame files s :
  incoming (drain JSON_parse files s) = incoming s
  ∧ reset_flag (drain JSON_parse files s) = reset_flag s
  ∧ (∀ h c, outgoing (drain JSON_parse files s) !! h = Some c → outgoing s !! h = Some c)
  ∧ (∀ k p, Map_get k (pendingMessages (drain JSON_parse files s)) = Some p →
            Map_get k (pendingMessages s) = Some p)
  ∧ (∃ lines, logFile (drain JSON_parse files s) = logFile s ++ lines
              ∧ (length files ≤ length lines)%nat)
  ∧ (∃ calls, sent (drain JSON_parse files s) = sent s ++ calls
              ∧ Forall (routed_by (pendingMessages s)) calls)
  ∧ (faults s = [] → faults (drain JSON_parse files s) = []).
Proof.
  revert s. induction files as [|f files IH]; intros s; simpl.
  - repeat split; try done.
    + exists []. by rewrite app_nil_r.
    + exists []. by rewrite app_nil_r.
  - destruct (IH (run (processResponseFile JSON_parse f) s))
      as (Hin & Hrf & Hout & Hpend & (lines & Hlog & Hlen) & (calls & Hsent & Hr) & Hf).
    fold (drain JSON_parse files (run (processResponseFile JSON_parse f) s)) in *.
    pose proof (step_outgoing_Some f s) as Hout1.
    pose proof (step_pending_Some f s) as Hpend1.
    pose proof (step_faults f s) as Hf1.
    unfold run in *.
    destruct (processResponseFile_step f s)
      as (s1 & E & Hin1 & Hrf1 & _ & _ & (l1 & Hl1 & Hlog1) & (c1 & Hsent1 & Hr1) & _).
    rewrite E in *. simpl in *.
    split; [congruence|]. split; [congruence|].
    split; [eauto|]. split; [eauto|].
    split; [|split; [|auto]].
    + exists (l1 ++ lines). rewrite Hlog, Hlog1, app_assoc. split; [done|].
      rewrite length_app. destruct l1; [done|]. simpl. lia.
    + exists (c1 ++ calls). rewrite Hsent, Hsent1, app_assoc. split; [done|].
      apply Forall_app. split; [done|].
      eapply Forall_impl; [exact Hr|]. intros c. by apply routed_by_mono.
Qed.

Lemma drain_outgoing_other files s h :
  h ∉ files → outgoing (drain JSON_parse files s) !! h = outgoing s !! h.
Proof.
  revert s. induction files as [|f files IH]; intros s Hh; simpl; [done|].
  apply not_elem_of_cons in Hh as [Hne Hh].
  fold (drain JSON_parse files (run (processResponseFile JSON_parse f) s)).
  rewrite IH by done. by apply step_outgoing_other.
Qed.

(** A listed orphan is deleted and warned about by the end of the cycle,
    whatever the other files are. *)
Lemma drain_orphan files s f content rd :
  f ∈ files → faults s = [] →
  outgoing s !! f = Some content →
  JSON_parse content = Some (ResponseData.toJs rd) →
  Map_get (ResponseData.messageId rd) (pendingMessages s) = None →
  outgoing (drain JSON_parse files s) !! f = None
  ∧ warn_no_pending (ResponseData.messageId rd) ∈ logFile (drain JSON_parse files s).
Proof.
  revert s. induction files as [|g files IH]; intros s Hin Hf Hfile Hparse Hget.
  - by apply elem_of_nil in Hin.
  - change (drain JSON_parse (g :: files) s)
      with (drain JSON_parse files (run (processResponseFile JSON_parse g) s)).
    destruct (decide (f = g)) as [<-|Hne].
    + unfold run. rewrite (processResponseFile_orphan _ _ _ _ Hf Hfile Hparse Hget).
      simpl.
      match goal with |- context [drain JSON_parse files ?st] =>
        destruct (drain_frame files st) as (_ & _ & Hout & _ & (lines & Hlog & _) & _)
      end.
      split.
      * destruct (outgoing (drain JSON_parse files _) !! f) eqn:E; [|done].
        apply Hout in E. simpl in E. by rewrite lookup_delete_eq in E.
      * rewrite Hlog. simpl. rewrite !elem_of_app, list_elem_of_singleton. auto.
    + apply elem_of_cons in Hin as [?|Hin]; [done|].
      apply IH; [done|by apply step_faults|by rewrite step_outgoing_other|done|].
      destruct (Map_get _ (pendingMessages (run _ s))) eqn:E; [|done].
      apply step_pending_Some in E. congruence.
Qed.

(** A listed response whose id only this file carries JSON_parse is sent, and entry
    and file are gone by the end of the cycle. *)
Lemma drain_matched files s f content rd pending :
  f ∈ files → faults s = [] →
  outgoing s !! f = Some content →
  JSON_parse content = Some (ResponseData.toJs rd) →
  Map_get (ResponseData.messageId rd) (pendingMessages s) = Some pending →
  (∀ g c, g ≠ f → outgoing s !! g = Some c →
          ¬ carries JSON_parse c (ResponseData.messageId rd)) →
  outgoing (drain JSON_parse files s) !! f = None
  ∧ Map_get (ResponseData.messageId rd) (pendingMessages (drain JSON_parse files s)) = None
  ∧ SendMessage (PendingMessage.chatId pending) (JStr (ResponseData.message rd))
                (PendingMessage.messageId pending) ∈ sent (drain JSON_parse files s).
Proof.
  revert s. induction files as [|g files IH];
    intros s Hin Hf Hfile Hparse Hget Huniq.
  - by apply elem_of_nil in Hin.
  - change (drain JSON_parse (g :: files) s)
      with (drain JSON_parse files (run (processResponseFile JSON_parse g) s)).
    destruct (decide (f = g)) as [<-|Hne].
    + unfold run. rewrite (processResponseFile_matched _ _ _ _ _ Hf Hfile Hparse Hget).
      simpl.
      match goal with |- context [drain JSON_parse files ?st] =>
        destruct (drain_frame files st)
          as (_ & _ & Hout & Hpend & _ & (calls & Hsent & _) & _)
      end.
      split; [|split].
      * destruct (outgoing (drain JSON_parse files _) !! f) eqn:E; [|done].
        apply Hout in E. simpl in E. by rewrite lookup_delete_eq in E.
      * destruct (Map_get _ (pendingMessages (drain JSON_parse files _))) eqn:E; [|done].
        apply Hpend in E. simpl in E. by rewrite Map_get_delete_eq in E.
      * rewrite Hsent. simpl. rewrite !elem_of_app, list_elem_of_singleton. auto.
    + apply elem_of_cons in Hin as [?|Hin]; [done|].
      apply IH; [done|by apply step_faults|by rewrite step_outgoing_other|done|..].
      * rewrite step_pending_other; [done|].
        intros c Hc. by apply (Huniq g c).
      * intros h c Hh Hc. apply (Huniq h c Hh). by apply step_outgoing_Some in Hc.
Qed.

Lemma elem_of_listing s f :
  f ∈ listing s ↔ own_file f = true ∧ is_Some (outgoing s !! f).
Proof.
  unfold listing. rewrite list_elem_of_filter, list_elem_of_fmap. split.
  - intros [? [[f' c] [-> Hin%elem_of_map_to_list]]]. eauto.
  - intros [? [c Hc]]. split; [done|]. exists (f, c). split; [done|].
    by apply elem_of_map_to_list.
Qed.

(** A listed file that [JSON.parse] rejects is still there at the end of the
    cycle, with an error line about it in the log. *)
Lemma drain_unparseable files s f content :
  f ∈ files → faults s = [] →
  outgoing s !! f = Some content →
  JSON_parse content = None →
  outgoing (drain JSON_parse files s) !! f = Some content
  ∧ (ERROR, [Lit (str "Error processing response file "); Lit f; Lit (str ": ");
             Err SyntaxError]) ∈ logFile (drain JSON_parse files s).
Proof.
  revert s. induction files as [|g files IH]; intros s Hin Hf Hfile Hparse.
  - by apply elem_of_nil in Hin.
  - change (drain JSON_parse (g :: files) s)
      with (drain JSON_parse files (run (processResponseFile JSON_parse g) s)).
    destruct (decide (f = g)) as [<-|Hne].
    + unfold run. rewrite (processResponseFile_unparseable _ _ _ Hf Hfile Hparse).
      simpl.
      match goal with |- context [drain JSON_parse files ?st] =>
        destruct (decide (f ∈ files)) as [Hin'|Hnin];
          [destruct (IH st Hin' Hf Hfile Hparse) as [Hstay Hlog]; by split|];
        destruct (drain_frame files st) as (_ & _ & _ & _ & (lines & Hlog & _) & _)
      end.
      split; [by rewrite drain_outgoing_other|].
      rewrite Hlog. simpl. rewrite !elem_of_app, list_elem_of_singleton. auto.
    + apply elem_of_cons in Hin as [?|Hin]; [done|].
      apply IH; [done|by apply step_faults|by rewrite step_outgoing_other|done].
Qed.

(** [checkOutgoingQueue] never throws. If the listing fails, it logs one
    error; otherwise it runs the body on every listed file in turn. *)
Lemma checkOutgoingQueue_run s :
  checkOutgoingQueue JSON_parse s
  = (Normal tt,
     if hd false (faults s)
     then set_logFile
            (logFile s ++ [(ERROR, [Lit (str "Outgoing queue error: "); Err EIO])])
            (after_fault s)
     else drain JSON_parse (listing s) (after_fault s)).
Proof.
  unfold checkOutgoingQueue, after_fault.
  unfold try_catch, bind at 1, readdirSync, bind at 1, fault.
  destruct (faults s) as [|[] o] eqn:Hf; simpl.
  - rewrite <-Hf, set_faults_same.
    unfold get, bind. by rewrite for_of_processResponseFile.
  - done.
  - unfold get, bind. by rewrite for_of_processResponseFile.
Qed.

(** *** The text-message handler *)

Ltac exec_onText :=
  unfold onText; exec; simpl;
  repeat (first [rewrite cleanup_run | step]).

(** The handler never throws, and never touches the outgoing directory. *)
Lemma onText_normal ctx r s :
  (onText JSON_stringify ctx r s).1 = Normal tt
  ∧ outgoing (run (onText JSON_stringify ctx r) s) = outgoing s.
Proof. unfold run. exec_onText; done. Qed.

(** A reset command: nothing is queued or tracked, and unless the write of
    the flag fails, the flag is written and the reply is issued. *)
Lemma onText_reset ctx r s :
  match_reset (trim (text (ctx_message ctx))) = true →
  incoming (run (onText JSON_stringify ctx r) s) = incoming s
  ∧ pendingMessages (run (onText JSON_stringify ctx r) s) = pendingMessages s
  ∧ (hd false (faults s) = false →
     reset_flag (run (onText JSON_stringify ctx r) s) = Some (str "reset")
     ∧ sent (run (onText JSON_stringify ctx r) s) = sent s ++ [reset_reply ctx]).
Proof. intros H. unfold run. exec_onText; done. Qed.

(** Any other text: the reset flag is left alone; either nothing is queued
    and nothing tracked, or a write that failed has left a part of the queue
    file and nothing is tracked, or the queue file is written and the entry
    recorded. *)
Lemma onText_queue_frame ctx r s :
  match_reset (trim (text (ctx_message ctx))) = false →
  reset_flag (run (onText JSON_stringify ctx r) s) = reset_flag s
  ∧ (incoming (run (onText JSON_stringify ctx r) s) = incoming s
     ∧ pendingMessages (run (onText JSON_stringify ctx r) s) = pendingMessages s
     ∨ (∃ n, incoming (run (onText JSON_stringify ctx r) s)
             = <[queueFile r := take n (JSON_stringify (QueueData.toJs (queueData ctx r)))]>
                 (incoming s))
       ∧ pendingMessages (run (onText JSON_stringify ctx r) s) = pendingMessages s
     ∨ incoming (run (onText JSON_stringify ctx r) s)
       = <[queueFile r := JSON_stringify (QueueData.toJs (queueData ctx r))]>
           (incoming s)
       ∧ pendingMessages (run (onText JSON_stringify ctx r) s)
         = evict (tenMinutesAgo r)
             (Map_set (newMessageId r) (pendingEntry ctx r) (pendingMessages s))
             (Map_set (newMessageId r) (pendingEntry ctx r) (pendingMessages s))).
Proof. intros H. unfold run. exec_onText; simpl; eauto 10. Qed.

(** Any other text, with no failure: the typing indicator is sent, the
    queue file written, the entry recorded and the tracker cleaned up. *)
Lemma onText_queued ctx r s :
  match_reset (trim (text (ctx_message ctx))) = false →
  faults s = [] →
  incoming (run (onText JSON_stringify ctx r) s)
  = <[queueFile r := JSON_stringify (QueueData.toJs (queueData ctx r))]> (incoming s)
  ∧ pendingMessages (run (onText JSON_stringify ctx r) s)
    = evict (tenMinutesAgo r)
            (Map_set (newMessageId r) (pendingEntry ctx r) (pendingMessages s))
            (Map_set (newMessageId r) (pendingEntry ctx r) (pendingMessages s))
  ∧ sent (run (onText JSON_stringify ctx r) s)
    = sent s ++ [typing (id (ctx_chat ctx))]
  ∧ faults (run (onText JSON_stringify ctx r) s) = [].
Proof. intros H Hf. unfold run. exec_onText; done. Qed.

(** Any other text, when the typing indicator cannot be sent: the error is
    logged and the message is neither queued nor tracked. *)
Lemma onText_typing_failed ctx r s :
  match_reset (trim (text (ctx_message ctx))) = false →
  hd false (faults s) = true →
  incoming (run (onText JSON_stringify ctx r) s) = incoming s
  ∧ pendingMessages (run (onText JSON_stringify ctx r) s) = pendingMessages s
  ∧ logFile (run (onText JSON_stringify ctx r) s)
    = logFile s
      ++ [(INFO, [Lit (str "Message from "); Lit (sender_of (ctx_from ctx));
                  Lit (str ": "); Lit (substring0 50 (text (ctx_message ctx)));
                  Lit (str "...")]);
          (ERROR, [Lit (str "Message handling error: "); Err TelegramError])].
Proof.
  intros H Hf. unfold run. exec_onText; try done.
  simpl. by rewrite <-app_assoc.
Qed.

(** *** The typing refresh *)

Lemma refreshTyping_loop entries s :
  for_of entries (λ '(_, data),
      p ← callApi (typing (PendingMessage.chatId data)); catch_ignore p) s
  = (Normal tt,
     set_sent (sent s ++ ((λ kv : jsstring * PendingMessage.t, typing (PendingMessage.chatId kv.2)) <$> entries))
              (set_faults (drop (length entries) (faults s)) s)).
Proof.
  revert s. induction entries as [|[k data] entries IH]; intros s.
  - simpl. rewrite app_nil_r. destruct s; reflexivity.
  - cbn [for_of]. unfold bind at 1. exec.
    destruct (faults s) as [|b o] eqn:Hf; simpl; rewrite IH; simpl.
    + rewrite Hf, drop_nil, <-app_assoc. destruct s; simpl in *; by subst.
    + rewrite <-app_assoc. reflexivity.
Qed.

(** The refresh never throws and never logs: it issues one typing indicator
    per pending entry, in order, whether or not the sends succeed. *)
Lemma refreshTyping_run s :
  refreshTyping s
  = (Normal tt,
     set_sent (sent s ++ ((λ kv : jsstring * PendingMessage.t, typing (PendingMessage.chatId kv.2))
                          <$> pendingMessages s))
              (set_faults (drop (length (pendingMessages s)) (faults s)) s)).
Proof. unfold refreshTyping, bind, get. apply refreshTyping_loop. Qed.

Lemma onText_reply_failed ctx r s o :
  match_reset (trim (text (ctx_message ctx))) = true →
  faults s = false :: true :: o →
  reset_flag (run (onText JSON_stringify ctx r) s) = Some (str "reset")
  ∧ last (logFile (run (onText JSON_stringify ctx r) s))
    = Some (ERROR, [Lit (str "Message handling error: "); Err TelegramError]).
Proof.
  intros H Hf. unfold run. exec_onText; try done.
  simpl. split; [done|]. by rewrite last_snoc.
Qed.


(** *** Cycles of the poll, seen from outside *)

Lemma after_fault_nofault s : faults s = [] → after_fault s = s.
Proof.
  unfold after_fault. intros Hf. rewrite Hf. simpl.
  rewrite <-Hf. apply set_faults_same.
Qed.

Lemma checkOutgoingQueue_nofault s :
  faults s = [] → run (checkOutgoingQueue JSON_parse) s = drain JSON_parse (listing s) s.
Proof.
  intros Hf. unfold run. rewrite checkOutgoingQueue_run, Hf. simpl.
  by rewrite after_fault_nofault.
Qed.

Lemma checkOutgoingQueue_frame s :
  incoming (run (checkOutgoingQueue JSON_parse) s) = incoming s
  ∧ (∀ k p, Map_get k (pendingMessages (run (checkOutgoingQueue JSON_parse) s)) = Some p →
            Map_get k (pendingMessages s) = Some p)
  ∧ ∃ calls, sent (run (checkOutgoingQueue JSON_parse) s) = sent s ++ calls
             ∧ Forall (routed_by (pendingMessages s)) calls.
Proof.
  unfold run. rewrite checkOutgoingQueue_run.
  destruct (hd false (faults s)); simpl.
  - split; [done|]. split; [done|]. exists []. by rewrite app_nil_r.
  - destruct (drain_frame (listing s) (after_fault s))
      as (Hin & _ & _ & Hpend & _ & Hsent & _).
    split; [done|]. split; [done|]. done.
Qed.

(** In a cycle without failures, a file of the adapter that is not JSON stays
    in the outgoing directory: every later cycle finds it again. *)
Lemma unparseable_file_stays s file content :
  faults s = [] → own_file file = true →
  outgoing s !! file = Some content →
  JSON_parse content = None →
  outgoing (run (checkOutgoingQueue JSON_parse) s) !! file = Some content
  ∧ file ∈ listing (run (checkOutgoingQueue JSON_parse) s).
Proof.
  intros Hf Hown Hfile Hparse.
  assert (file ∈ listing s) as Hin by (apply elem_of_listing; eauto).
  rewrite checkOutgoingQueue_nofault by done.
  destruct (drain_unparseable _ _ _ _ Hin Hf Hfile Hparse) as [Hstay _].
  split; [done|]. apply elem_of_listing. eauto.
Qed.

(** *** The tracker stays a map *)

Lemma drain_wf files s :
  Map_wf (pendingMessages s) → Map_wf (pendingMessages (drain JSON_parse files s)).
Proof.
  revert s. induction files as [|f files IH]; intros s Hwf; [done|].
  change (drain JSON_parse (f :: files) s)
    with (drain JSON_parse files (run (processResponseFile JSON_parse f) s)).
  apply IH. unfold run.
  destruct (processResponseFile_step f s)
    as (s1 & -> & _ & _ & _ & [E | (c & k & _ & _ & E)] & _); simpl; rewrite E;
    [done|by apply Map_delete_wf].
Qed.

Lemma react_wf e s :
  Map_wf (pendingMessages s) →
  Map_wf (pendingMessages (react JSON_parse JSON_stringify e s)).
Proof.
  intros Hwf. destruct e as [ctx r| | |i o f fs]; simpl.
  - destruct (match_reset (trim (text (ctx_message ctx)))) eqn:Hm.
    + destruct (onText_reset ctx r s Hm) as (_ & -> & _). done.
    + destruct (onText_queue_frame ctx r s Hm) as (_ & [[_ ->] | [[_ ->] | [_ ->]]]);
        [done|done|].
      by apply evict_wf, Map_set_wf.
  - unfold run. rewrite checkOutgoingQueue_run.
    destruct (hd false (faults s)); simpl; [done|]. by apply drain_wf.
  - unfold run. by rewrite refreshTyping_run.
  - done.
Qed.

(** Whatever happens, the keys of the tracker are unique. *)
Lemma history_wf events :
  Map_wf (pendingMessages (history JSON_parse JSON_stringify events)).
Proof.
  unfold history.
  induction events as [|e events IH] using rev_ind; simpl.
  - apply NoDup_nil_2.
  - rewrite foldl_app. simpl. by apply react_wf.
Qed.

(** *** The properties of the specification *)

(** C1: an inbound text that matches [/^[!/]reset$/i] is answered without the
    queue: the handler completes, writes no file into the incoming directory
    and creates no pending entry; and unless the write of the sentinel itself
    fails, the reset flag is written and the reply is issued at once. *)
Theorem reset_bypasses_queue ctx r s :
  match_reset (text (ctx_message ctx)) = true →
  (onText JSON_stringify ctx r s).1 = Normal tt
  ∧ incoming (run (onText JSON_stringify ctx r) s) = incoming s
  ∧ pendingMessages (run (onText JSON_stringify ctx r) s) = pendingMessages s
  ∧ (hd false (faults s) = false →
     reset_flag (run (onText JSON_stringify ctx r) s) = Some (str "reset")
     ∧ sent (run (onText JSON_stringify ctx r) s) = sent s ++ [reset_reply ctx]).
Proof.
  intros H.
  assert (match_reset (trim (text (ctx_message ctx))) = true) as Htrim
    by (by rewrite match_reset_trim).
  split; [apply onText_normal|]. by apply onText_reset.
Qed.

(** C2, as the adapter has it: eviction happens when a later message that is
    not a reset is handled. The clean-up that ends its handler drops every
    entry stamped more than ten minutes before the handler's clock reading,
    so that the tracker then holds entries within the window only, and a poll
    that finds the tracker so sends nothing but replies addressed by such
    entries. *)
Theorem eviction_on_next_message ctx r s :
  match_reset (trim (text (ctx_message ctx))) = false →
  faults s = [] →
  (∀ k p, Map_get k (pendingMessages s) = Some p →
          PendingMessage.timestamp p < tenMinutesAgo r →
          Map_get k (pendingMessages (run (onText JSON_stringify ctx r) s)) ≠ Some p)
  ∧ (∀ k p, Map_get k (pendingMessages (run (onText JSON_stringify ctx r) s)) = Some p →
            tenMinutesAgo r ≤ PendingMessage.timestamp p)
  ∧ (∀ s2, pendingMessages s2 = pendingMessages (run (onText JSON_stringify ctx r) s) →
       ∃ calls, sent (run (checkOutgoingQueue JSON_parse) s2) = sent s2 ++ calls
         ∧ Forall (λ c, ∃ k p text,
                      Map_get k (pendingMessages s2) = Some p
                      ∧ tenMinutesAgo r ≤ PendingMessage.timestamp p
                      ∧ c = SendMessage (PendingMessage.chatId p) text
                                        (PendingMessage.messageId p)) calls).
Proof.
  intros Hm Hf.
  destruct (onText_queued ctx r s Hm Hf) as (_ & Hpend & _).
  assert (∀ k p, Map_get k (pendingMessages (run (onText JSON_stringify ctx r) s)) = Some p →
                 tenMinutesAgo r ≤ PendingMessage.timestamp p) as Hbound.
  { intros k p. rewrite Hpend. by intros [_ ?]%evict_bound. }
  split; [|split; [done|]].
  - intros k p _ Hstale Hget. apply Hbound in Hget. lia.
  - intros s2 Hs2.
    destruct (checkOutgoingQueue_frame s2) as (_ & _ & calls & Hsent & Hr).
    exists calls. split; [done|].
    eapply Forall_impl; [exact Hr|].
    intros c (k & p & text & Hget & ->). exists k, p, text.
    split; [done|]. split; [|done]. apply (Hbound k). by rewrite <-Hs2.
Qed.

(** C4: a well-formed response found in the outgoing directory whose id has no
    pending entry is warned about and deleted, and nothing is sent for it: the
    body of the loop does exactly that, and by the end of the cycle the file
    is gone (so that no later cycle lists it), the warning is in the log and
    every message sent in the cycle was addressed by an entry of another
    id. *)
Theorem orphan_response_discarded s file content rd :
  faults s = [] →
  own_file file = true →
  outgoing s !! file = Some content →
  JSON_parse content = Some (ResponseData.toJs rd) →
  Map_get (ResponseData.messageId rd) (pendingMessages s) = None →
  processResponseFile JSON_parse file s
  = (Normal tt,
     set_outgoing (delete file (outgoing s))
       (set_logFile (logFile s ++ [warn_no_pending (ResponseData.messageId rd)]) s))
  ∧ outgoing (run (checkOutgoingQueue JSON_parse) s) !! file = None
  ∧ (file ∉ listing (run (checkOutgoingQueue JSON_parse) s))
  ∧ warn_no_pending (ResponseData.messageId rd)
    ∈ logFile (run (checkOutgoingQueue JSON_parse) s)
  ∧ ∃ calls, sent (run (checkOutgoingQueue JSON_parse) s) = sent s ++ calls
      ∧ Forall (λ c, ∃ k p text,
                   k ≠ ResponseData.messageId rd
                   ∧ Map_get k (pendingMessages s) = Some p
                   ∧ c = SendMessage (PendingMessage.chatId p) text
                                     (PendingMessage.messageId p)) calls.
Proof.
  intros Hf Hown Hfile Hparse Hget.
  split; [by apply (processResponseFile_orphan _ _ content)|].
  assert (file ∈ listing s) as Hin by (apply elem_of_listing; eauto).
  destruct (checkOutgoingQueue_frame s) as (_ & _ & calls & Hsent & Hr).
  rewrite checkOutgoingQueue_nofault in * by done.
  destruct (drain_orphan _ _ _ _ _ Hin Hf Hfile Hparse Hget) as [Hgone Hwarn].
  split; [done|]. split; [|split; [done|]].
  - rewrite elem_of_listing, Hgone. by intros [_ [? ?]].
  - exists calls. split; [done|].
    eapply Forall_impl; [exact Hr|].
    intros c (k & p & text & Hk & ->). exists k, p, text.
    split; [|done]. intros ->. congruence.
Qed.

(** C5: a well-formed response whose id has a pending entry is sent to the
    entry's chat as a reply to the original message, the entry is removed and
    the file deleted: the body of the loop does exactly that, and when no
    other file of the directory carries the same id, the message is among
    those sent and entry and file are gone by the end of the cycle. *)
Theorem matched_response_delivered s file content rd pending :
  faults s = [] →
  own_file file = true →
  outgoing s !! file = Some content →
  JSON_parse content = Some (ResponseData.toJs rd) →
  Map_get (ResponseData.messageId rd) (pendingMessages s) = Some pending →
  processResponseFile JSON_parse file s
  = (Normal tt,
     set_outgoing (delete file (outgoing s))
       (set_pendingMessages
          (Map_delete (ResponseData.messageId rd) (pendingMessages s))
          (set_logFile
             (logFile s ++
                [(INFO, [Lit (str "Sent response to ");
                         Val (JStr (ResponseData.sender rd)); Lit (str " (");
                         Val (JNum (Z.of_nat (length (ResponseData.message rd))));
                         Lit (str " chars)")])])
             (set_sent
                (sent s ++
                   [SendMessage (PendingMessage.chatId pending)
                                (JStr (ResponseData.message rd))
                                (PendingMessage.messageId pending)]) s))))
  ∧ ((∀ g c, g ≠ file → outgoing s !! g = Some c →
             ¬ carries JSON_parse c (ResponseData.messageId rd)) →
     outgoing (run (checkOutgoingQueue JSON_parse) s) !! file = None
     ∧ Map_get (ResponseData.messageId rd)
               (pendingMessages (run (checkOutgoingQueue JSON_parse) s)) = None
     ∧ SendMessage (PendingMessage.chatId pending) (JStr (ResponseData.message rd))
                   (PendingMessage.messageId pending)
       ∈ sent (run (checkOutgoingQueue JSON_parse) s)).
Proof.
  intros Hf Hown Hfile Hparse Hget.
  split; [by apply (processResponseFile_matched _ _ content)|].
  intros Huniq.
  assert (file ∈ listing s) as Hin by (apply elem_of_listing; eauto).
  rewrite checkOutgoingQueue_nofault by done.
  by apply (drain_matched _ _ _ content).
Qed.

(** Two ids are the same exactly when both the clock reading and the random
    suffix are. *)
Lemma newMessageId_inj r r' :
  newMessageId r' = newMessageId r
  ↔ now_id r' = now_id r ∧ random_suffix r' = random_suffix r.
Proof.
  unfold newMessageId. change (str "_") with [95%N]. simpl. split.
  - intros [Ht Hr]%app_pivot_inj; [|apply toString_no_underscore..].
    split; [by apply toString_inj|done].
  - by intros [-> ->].
Qed.

(** C6, as the adapter has it: a message that is not a reset and is handled
    without failure gets the id [`${Date.now()}_${suffix}`]; the object
    serialised into [telegram_{id}.json] of the incoming directory carries
    that id, and a pending entry is recorded under the same id. The entry
    outlives the handler's own clean-up unless the clock reading of the
    clean-up is more than ten minutes past that of the entry, in which case
    the handler removes it at once. The id is the one of another message
    exactly when clock reading and random suffix both coincide. *)
Theorem message_queued_under_id ctx r s :
  match_reset (trim (text (ctx_message ctx))) = false →
  faults s = [] →
  Map_wf (pendingMessages s) →
  newMessageId r = toString (now_id r) ++ str "_" ++ random_suffix r
  ∧ incoming (run (onText JSON_stringify ctx r) s)
    = <[str "telegram_" ++ newMessageId r ++ str ".json"
        := JSON_stringify
             (JObj [ (str "channel", JStr (str "telegram"));
                     (str "sender", JStr (sender_of (ctx_from ctx)));
                     (str "senderId", JStr (toString (id (ctx_chat ctx))));
                     (str "message", JStr (text (ctx_message ctx)));
                     (str "timestamp", JNum (now_queue r));
                     (str "messageId", JStr (newMessageId r)) ])]> (incoming s)
  ∧ Map_get (newMessageId r) (pendingMessages (run (onText JSON_stringify ctx r) s))
    = (if now_pending r <? now_cleanup r - 10 * 60 * 1000
       then None
       else Some (PendingMessage.mk (id (ctx_chat ctx)) (message_id (ctx_message ctx))
                                    (now_pending r)))
  ∧ (∀ r', newMessageId r' = newMessageId r
           ↔ now_id r' = now_id r ∧ random_suffix r' = random_suffix r).
Proof.
  intros Hm Hf Hwf.
  destruct (onText_queued ctx r s Hm Hf) as (Hin & Hpend & _).
  split; [done|]. split; [exact Hin|]. split.
  - rewrite Hpend. change (now_cleanup r - 10 * 60 * 1000) with (tenMinutesAgo r).
    destruct (now_pending r <? tenMinutesAgo r) eqn:Hjump.
    + apply Z.ltb_lt in Hjump.
      apply (evict_stale _ _ _ _ (pendingEntry ctx r)); [|done].
      apply Map_get_elem, Map_get_set_eq.
    + apply Z.ltb_ge in Hjump.
      apply evict_keeps; [by apply Map_set_wf|apply Map_get_set_eq|done].
  - intros r'. apply newMessageId_inj.
Qed.

(** C7, as the adapter has it: a failed send is swallowed, but not always
    logged. The handler and the typing refresh complete normally whatever
    fails. The refresh sends one indicator per pending entry, goes on after a
    failed send and logs nothing. In the handler a failed typing indicator is
    logged as an error and the message is then neither queued nor tracked,
    and a failed reply to a reset is logged as an error after the flag has
    been written. *)
Theorem platform_errors_contained ctx r s :
  (onText JSON_stringify ctx r s).1 = Normal tt
  ∧ (refreshTyping s).1 = Normal tt
  ∧ logFile (run refreshTyping s) = logFile s
  ∧ sent (run refreshTyping s)
    = sent s ++ ((λ kv : jsstring * PendingMessage.t,
                    typing (PendingMessage.chatId kv.2)) <$> pendingMessages s)
  ∧ (match_reset (trim (text (ctx_message ctx))) = false →
     hd false (faults s) = true →
     incoming (run (onText JSON_stringify ctx r) s) = incoming s
     ∧ pendingMessages (run (onText JSON_stringify ctx r) s) = pendingMessages s
     ∧ last (logFile (run (onText JSON_stringify ctx r) s))
       = Some (ERROR, [Lit (str "Message handling error: "); Err TelegramError]))
  ∧ (match_reset (trim (text (ctx_message ctx))) = true →
     ∀ o, faults s = false :: true :: o →
     reset_flag (run (onText JSON_stringify ctx r) s) = Some (str "reset")
     ∧ last (logFile (run (onText JSON_stringify ctx r) s))
       = Some (ERROR, [Lit (str "Message handling error: "); Err TelegramError])).
Proof.
  split; [apply onText_normal|].
  unfold run. rewrite refreshTyping_run. simpl.
  split; [done|]. split; [done|]. split; [done|]. split.
  - intros Hm Hf.
    destruct (onText_typing_failed ctx r s Hm Hf) as (Hin & Hpend & Hlog).
    unfold run in *. split; [done|]. split; [done|].
    rewrite Hlog.
    change [?a; ?b] with ([a] ++ [b]). by rewrite app_assoc, last_snoc.
  - intros Hm o Hf. by apply (onText_reply_failed ctx r s o).
Qed.

(** C9: a cycle of the poll handles every file it lists, whatever happens to
    the others. The body of the loop completes normally on every file and in
    every state, whichever of its steps fail; the cycle itself completes
    normally, and is either an error line about a listing that failed or the
    body run on each listed file in turn, which leaves at least one log line
    per file. *)
Theorem poll_isolates_failures s :
  (∀ file st, (processResponseFile JSON_parse file st).1 = Normal tt)
  ∧ checkOutgoingQueue JSON_parse s
    = (Normal tt,
       if hd false (faults s)
       then set_logFile
              (logFile s ++ [(ERROR, [Lit (str "Outgoing queue error: "); Err EIO])])
              (after_fault s)
       else foldl (λ st f, run (processResponseFile JSON_parse f) st)
                  (after_fault s) (listing s))
  ∧ (length (logFile s) + length (listing s)
     ≤ length (logFile (foldl (λ st f, run (processResponseFile JSON_parse f) st)
                              (after_fault s) (listing s))))%nat.
Proof.
  split; [apply processResponseFile_normal|].
  split; [apply checkOutgoingQueue_run|].
  destruct (drain_frame (listing s) (after_fault s))
    as (_ & _ & _ & _ & (lines & Hlog & Hlen) & _).
  unfold drain in Hlog. rewrite Hlog, length_app. simpl. lia.
Qed.


(** *** Further properties of the text-message handler *)

Lemma trimStart_white (pre s : jsstring) :
  Forall (λ c, isWhiteSpace c = true) pre → trimStart (pre ++ s) = trimStart s.
Proof. induction 1 as [|c pre Hc _ IH]; simpl; [done|]. by rewrite Hc. Qed.

(** The two ends of a text that matches the pattern are not white space. *)
Lemma match_reset_ends (s : jsstring) :
  match_reset s = true →
  ∃ c0 c1 c2 c3 c4 c5, s = [c0; c1; c2; c3; c4; c5]
    ∧ isWhiteSpace c0 = false ∧ isWhiteSpace c5 = false.
Proof.
  destruct s as [|c0 [|c1 [|c2 [|c3 [|c4 [|c5 [|c6 s]]]]]]]; try done.
  simpl. rewrite !andb_true_iff, orb_true_iff. unfold ci_eq.
  intros [[[[[H0 _] _] _] _] H5].
  exists c0, c1, c2, c3, c4, c5. split; [done|]. split.
  - change (canonicalize 33) with 33%N in H0.
    change (canonicalize 47) with 47%N in H0.
    destruct H0 as [H0|H0]; apply N.eqb_eq in H0; symmetry in H0;
      apply canonicalize_fixed in H0; [by subst|lia|lia|by subst|lia|lia].
  - apply N.eqb_eq in H5. symmetry in H5.
    change (canonicalize 116) with 84%N in H5.
    apply canonicalize_letter in H5; [|lia]. by destruct H5 as [-> | ->].
Qed.

Lemma trim_padded (pre core post : jsstring) :
  match_reset core = true →
  Forall (λ c, isWhiteSpace c = true) pre →
  Forall (λ c, isWhiteSpace c = true) post →
  trim (pre ++ core ++ post) = core.
Proof.
  intros (c0 & c1 & c2 & c3 & c4 & c5 & -> & E0 & E5)%match_reset_ends Hpre Hpost.
  unfold trim. rewrite trimStart_white by done.
  cbn [app trimStart]. rewrite E0.
  change (c0 :: c1 :: c2 :: c3 :: c4 :: c5 :: post)
    with ([c0; c1; c2; c3; c4] ++ c5 :: post).
  rewrite reverse_app, reverse_cons, <-app_assoc.
  rewrite trimStart_white by (by apply Forall_reverse).
  cbn [app trimStart]. rewrite E5.
  change (c5 :: reverse [c0; c1; c2; c3; c4]) with (reverse [c0; c1; c2; c3; c4; c5]).
  apply reverse_involutive.
Qed.

(** The reset command is recognised whatever white space surrounds it: such a
    text is handled as a reset, so that nothing is queued or tracked for it,
    and unless the write of the flag fails the flag is written and the reply
    issued. *)
Theorem padded_reset_is_reset ctx r s (pre core post : jsstring) :
  text (ctx_message ctx) = pre ++ core ++ post →
  match_reset core = true →
  Forall (λ c, isWhiteSpace c = true) pre →
  Forall (λ c, isWhiteSpace c = true) post →
  incoming (run (onText JSON_stringify ctx r) s) = incoming s
  ∧ pendingMessages (run (onText JSON_stringify ctx r) s) = pendingMessages s
  ∧ (hd false (faults s) = false →
     reset_flag (run (onText JSON_stringify ctx r) s) = Some (str "reset")
     ∧ sent (run (onText JSON_stringify ctx r) s) = sent s ++ [reset_reply ctx]).
Proof.
  intros Htext Hcore Hpre Hpost.
  apply onText_reset. rewrite Htext, trim_padded; done.
Qed.

(** The tracker after a message has been queued without failure: an entry is
    in it exactly when it is stamped no more than ten minutes before the
    clock reading of the clean-up (ten minutes to the millisecond are still
    within), and is either the entry of the new message under its id or an
    entry that was there before under another id. *)
Theorem tracker_after_message ctx r s k p :
  match_reset (trim (text (ctx_message ctx))) = false →
  faults s = [] →
  Map_wf (pendingMessages s) →
  Map_get k (pendingMessages (run (onText JSON_stringify ctx r) s)) = Some p
  ↔ now_cleanup r - 600000 ≤ PendingMessage.timestamp p
    ∧ (k = newMessageId r ∧ p = pendingEntry ctx r
       ∨ k ≠ newMessageId r ∧ Map_get k (pendingMessages s) = Some p).
Proof.
  intros Hm Hf Hwf.
  destruct (onText_queued ctx r s Hm Hf) as (_ & -> & _).
  change (now_cleanup r - 600000) with (tenMinutesAgo r).
  assert (Map_get k (Map_set (newMessageId r) (pendingEntry ctx r) (pendingMessages s))
          = Some p
          ↔ k = newMessageId r ∧ p = pendingEntry ctx r
            ∨ k ≠ newMessageId r ∧ Map_get k (pendingMessages s) = Some p) as Hset.
  { destruct (decide (k = newMessageId r)) as [->|Hne].
    - rewrite Map_get_set_eq. split; [intros [= <-]; auto|].
      by intros [[_ ->] | [? _]].
    - rewrite Map_get_set_ne by done. split; [auto|]. by intros [[? _] | [_ ?]]. }
  split.
  - intros [Hget Hbound]%evict_bound. split; [done|]. by apply Hset.
  - intros [Hbound Hget]. apply evict_keeps; [by apply Map_set_wf|by apply Hset|done].
Qed.

(** When the typing indicator goes through and the write of the queue file
    fails, nothing is tracked, so that no reply is waited for: the tracker is
    as it was, the typing indicator is the only call issued and the failure is
    the last line of the log. In the incoming directory no file but the
    message's own is touched, and that one is as it was or holds what the
    write got down of the entry. *)
Theorem unwritten_message_is_not_tracked ctx r s o :
  match_reset (trim (text (ctx_message ctx))) = false →
  faults s = false :: true :: o →
  pendingMessages (run (onText JSON_stringify ctx r) s) = pendingMessages s
  ∧ sent (run (onText JSON_stringify ctx r) s) = sent s ++ [typing (id (ctx_chat ctx))]
  ∧ last (logFile (run (onText JSON_stringify ctx r) s))
    = Some (ERROR, [Lit (str "Message handling error: "); Err EIO])
  ∧ (∀ f, f ≠ queueFile r →
          incoming (run (onText JSON_stringify ctx r) s) !! f = incoming s !! f)
  ∧ (incoming (run (onText JSON_stringify ctx r) s) = incoming s
     ∨ ∃ n, incoming (run (onText JSON_stringify ctx r) s)
            = <[queueFile r := take n (JSON_stringify (QueueData.toJs (queueData ctx r)))]>
                (incoming s)).
Proof.
  intros Hm Hf. unfold run. exec_onText; try done; simpl.
  all: rewrite ?last_snoc; repeat split; try done.
  all: first [ by left
             | right; eexists; reflexivity
             | intros f Hne; by apply lookup_insert_ne ].
Qed.

(** When the write of the reset flag fails, the user is not told that the
    conversation was reset: no reply is issued and the failure is the last
    line of the log; nothing is queued or tracked. The flag itself is as it
    was or, the failure having struck after the file was created, holds what
    the write got down. *)
Theorem unwritten_reset_is_not_confirmed ctx r s :
  match_reset (trim (text (ctx_message ctx))) = true →
  hd false (faults s) = true →
  sent (run (onText JSON_stringify ctx r) s) = sent s
  ∧ last (logFile (run (onText JSON_stringify ctx r) s))
    = Some (ERROR, [Lit (str "Message handling error: "); Err EIO])
  ∧ incoming (run (onText JSON_stringify ctx r) s) = incoming s
  ∧ pendingMessages (run (onText JSON_stringify ctx r) s) = pendingMessages s
  ∧ (reset_flag (run (onText JSON_stringify ctx r) s) = reset_flag s
     ∨ ∃ n, reset_flag (run (onText JSON_stringify ctx r) s)
            = Some (take n (str "reset"))).
Proof.
  intros Hm Hf. unfold run. exec_onText; try done; simpl.
  all: rewrite ?last_snoc; repeat split; try done.
  all: first [ by left | right; eexists; reflexivity ].
Qed.

Lemma queueFile_inj r r' : queueFile r' = queueFile r → newMessageId r' = newMessageId r.
Proof.
  unfold queueFile. intros H%(inj (app (str "telegram_"))).
  by apply (inj (λ l, l ++ str ".json")) in H.
Qed.

(** The handler writes one file of the incoming directory at most, the one
    named after the id of its message: whatever the text and whatever fails,
    the queue file of a message whose clock reading or random suffix differs
    is left as it is, and so is the outgoing directory. *)
Theorem other_queue_files_untouched ctx r s r' :
  now_id r' ≠ now_id r ∨ random_suffix r' ≠ random_suffix r →
  incoming (run (onText JSON_stringify ctx r) s) !! queueFile r'
  = incoming s !! queueFile r'
  ∧ outgoing (run (onText JSON_stringify ctx r) s) = outgoing s.
Proof.
  intros Hdiff. split; [|apply onText_normal].
  assert (queueFile r ≠ queueFile r') as Hne.
  { intros Heq. symmetry in Heq. apply queueFile_inj, newMessageId_inj in Heq. tauto. }
  destruct (match_reset (trim (text (ctx_message ctx)))) eqn:Hm.
  - by destruct (onText_reset ctx r s Hm) as (-> & _).
  - destruct (onText_queue_frame ctx r s Hm) as (_ & [[-> _] | [[[n ->] _] | [-> _]]]);
      [done|by apply lookup_insert_ne..].
Qed.

(** Every text message is logged first, whatever happens next, and the line
    carries the first fifty code units of its text at most. *)
Theorem message_logged_first ctx r s :
  ∃ rest,
    logFile (run (onText JSON_stringify ctx r) s)
    = logFile s
      ++ (INFO, [Lit (str "Message from "); Lit (sender_of (ctx_from ctx));
                 Lit (str ": "); Lit (substring0 50 (text (ctx_message ctx)));
                 Lit (str "...")]) :: rest
  ∧ (length (substring0 50 (text (ctx_message ctx))) ≤ 50)%nat
  ∧ (length (text (ctx_message ctx)) ≤ 50 →
     substring0 50 (text (ctx_message ctx)) = text (ctx_message ctx))%nat.
Proof.
  assert (length (substring0 50 (text (ctx_message ctx))) ≤ 50)%nat as Hlen
    by (unfold substring0; rewrite length_take; lia).
  assert (length (text (ctx_message ctx)) ≤ 50 →
          substring0 50 (text (ctx_message ctx)) = text (ctx_message ctx))%nat as Hshort
    by (intros ?; unfold substring0; by apply take_ge).
  unfold run. exec_onText; simpl; rewrite <-?app_assoc; simpl;
    eexists; (split; [reflexivity|done]).
Qed.

(** *** Further properties of the poll *)

Lemma startsWith_prefix (p s : jsstring) :
  startsWith p s = true ↔ ∃ t, s = p ++ t.
Proof.
  revert s. induction p as [|a p IH]; intros s; simpl.
  - split; [eauto|done].
  - destruct s as [|b s]; [split; [done|by intros [t ?]]|].
    rewrite andb_true_iff, bool_decide_eq_true, IH. split.
    + intros [-> [t ->]]. eauto.
    + intros [t [= -> ->]]. eauto.
Qed.

Lemma endsWith_suffix (q s : jsstring) :
  endsWith q s = true ↔ ∃ u, s = u ++ q.
Proof.
  unfold endsWith. rewrite startsWith_prefix. split.
  - intros [t Ht]. exists (reverse t).
    apply (inj reverse). by rewrite reverse_app, reverse_involutive.
  - intros [u ->]. exists (reverse u). by rewrite reverse_app.
Qed.

(** The files that the poll takes for its own are exactly those named
    [telegram_{anything}.json]; the name that the handler gives the queue
    file of a message is one of them. *)
Theorem own_file_names (f : jsstring) (r : Readings) :
  (own_file f = true ↔ ∃ mid, f = str "telegram_" ++ mid ++ str ".json")
  ∧ own_file (queueFile r) = true.
Proof.
  assert (∀ mid, own_file (str "telegram_" ++ mid ++ str ".json") = true) as Hown.
  { intros mid. unfold own_file. apply andb_true_iff. split.
    - apply startsWith_prefix. eauto.
    - apply endsWith_suffix. exists (str "telegram_" ++ mid). by rewrite <-app_assoc. }
  split; [|apply Hown]. split; [|by intros [mid ->]].
  unfold own_file. rewrite andb_true_iff, startsWith_prefix, endsWith_suffix.
  intros [[t ->] [u Hu]].
  apply app_eq_inv in Hu as [(k & Hp & Ht) | (k & -> & ->)]; [|by exists k].
  destruct k as [|c k].
  - simpl in Ht. subst t. by exists [].
  - exfalso.
    assert (c = 46%N) as -> by (by injection Ht as <- _).
    assert (46%N ∈ str "telegram_") as Hin
      by (rewrite Hp, elem_of_app, elem_of_cons; auto).
    vm_compute in Hin.
    repeat (apply elem_of_cons in Hin as [Hin|Hin]; [done|]).
    by apply elem_of_nil in Hin.
Qed.

(** Whatever is in the directory and whatever fails, a cycle of the poll
    leaves alone every file that is not named [telegram_*.json]: the
    responses of the other adapters are not its to consume. *)
Theorem poll_leaves_foreign_files s f :
  own_file f = false →
  outgoing (run (checkOutgoingQueue JSON_parse) s) !! f = outgoing s !! f.
Proof.
  intros Hf. unfold run. rewrite checkOutgoingQueue_run.
  destruct (hd false (faults s)); simpl; [done|].
  rewrite drain_outgoing_other; [done|].
  rewrite elem_of_listing. intros [? _]. congruence.
Qed.

(** Whatever is in the directory and whatever fails, a cycle of the poll only
    consumes: it creates and rewrites no file (what is in the outgoing
    directory afterwards was there before, unchanged), adds no entry to the
    tracker, and touches neither the incoming directory nor the reset
    flag. *)
Theorem poll_only_consumes s :
  (∀ f c, outgoing (run (checkOutgoingQueue JSON_parse) s) !! f = Some c →
          outgoing s !! f = Some c)
  ∧ (∀ k p, Map_get k (pendingMessages (run (checkOutgoingQueue JSON_parse) s)) = Some p →
            Map_get k (pendingMessages s) = Some p)
  ∧ incoming (run (checkOutgoingQueue JSON_parse) s) = incoming s
  ∧ reset_flag (run (checkOutgoingQueue JSON_parse) s) = reset_flag s.
Proof.
  unfold run. rewrite checkOutgoingQueue_run.
  destruct (hd false (faults s)); simpl; [done|].
  destruct (drain_frame (listing s) (after_fault s))
    as (Hin & Hrf & Hout & Hpend & _).
  done.
Qed.

(** From the message to its reply: when a message has been queued without
    failure, the clock reading of its clean-up being no more than ten minutes
    past that of its pending entry, and a response carrying its id, and the
    only one to carry it, is later found by a cycle without failure while the
    tracker is as the handler left it, the text of the response is sent to
    the chat the message came from, as a reply to that very message, and
    entry and file are gone. *)
Theorem reply_round_trip ctx r s s2 file content rd :
  match_reset (trim (text (ctx_message ctx))) = false →
  faults s = [] →
  Map_wf (pendingMessages s) →
  now_cleanup r - 600000 ≤ now_pending r →
  pendingMessages s2 = pendingMessages (run (onText JSON_stringify ctx r) s) →
  faults s2 = [] →
  own_file file = true →
  outgoing s2 !! file = Some content →
  JSON_parse content = Some (ResponseData.toJs rd) →
  ResponseData.messageId rd = newMessageId r →
  (∀ g c, g ≠ file → outgoing s2 !! g = Some c →
          ¬ carries JSON_parse c (newMessageId r)) →
  SendMessage (id (ctx_chat ctx)) (JStr (ResponseData.message rd))
              (message_id (ctx_message ctx))
  ∈ sent (run (checkOutgoingQueue JSON_parse) s2)
  ∧ Map_get (newMessageId r)
            (pendingMessages (run (checkOutgoingQueue JSON_parse) s2)) = None
  ∧ outgoing (run (checkOutgoingQueue JSON_parse) s2) !! file = None.
Proof.
  intros Hm Hf Hwf Hclock Hs2 Hf2 Hown Hfile Hparse Hid Huniq.
  destruct (onText_queued ctx r s Hm Hf) as (_ & Hpend & _).
  assert (Map_get (ResponseData.messageId rd) (pendingMessages s2)
          = Some (pendingEntry ctx r)) as Hget.
  { rewrite Hid, Hs2, Hpend.
    apply evict_keeps; [by apply Map_set_wf|apply Map_get_set_eq|done]. }
  assert (file ∈ listing s2) as Hin by (apply elem_of_listing; eauto).
  rewrite checkOutgoingQueue_nofault by done.
  rewrite <-Hid in Huniq |- *.
  destruct (drain_matched (listing s2) s2 file content rd (pendingEntry ctx r)
              Hin Hf2 Hfile Hparse Hget Huniq) as (Hgone & Hnone & Hsent).
  done.
Qed.

(** The poll does not wait for the outcome of a send: whether the Telegram
    API fulfils or rejects it, the log reports the response as sent, and
    entry and file are removed, so that a rejected reply is not sent again;
    the rejection is left to a promise that nothing handles. *)
Theorem send_outcome_ignored file s content rd pending (rejected : bool) o :
  faults s = false :: rejected :: false :: o →
  outgoing s !! file = Some content →
  JSON_parse content = Some (ResponseData.toJs rd) →
  Map_get (ResponseData.messageId rd) (pendingMessages s) = Some pending →
  let reply := SendMessage (PendingMessage.chatId pending)
                           (JStr (ResponseData.message rd))
                           (PendingMessage.messageId pending) in
  (processResponseFile JSON_parse file s).1 = Normal tt
  ∧ sent (run (processResponseFile JSON_parse file) s) = sent s ++ [reply]
  ∧ logFile (run (processResponseFile JSON_parse file) s)
    = logFile s
      ++ [(INFO, [Lit (str "Sent response to ");
                  Val (JStr (ResponseData.sender rd)); Lit (str " (");
                  Val (JNum (Z.of_nat (length (ResponseData.message rd))));
                  Lit (str " chars)")])]
  ∧ pendingMessages (run (processResponseFile JSON_parse file) s)
    = Map_delete (ResponseData.messageId rd) (pendingMessages s)
  ∧ outgoing (run (processResponseFile JSON_parse file) s) = delete file (outgoing s)
  ∧ unhandled (run (processResponseFile JSON_parse file) s)
    = unhandled s ++ (if rejected then [reply] else []).
Proof.
  intros Hf Hfile Hparse Hget. unfold run.
  unfold processResponseFile. exec. simpl.
  repeat (first [rewrite Hf | rewrite Hfile | rewrite Hparse | rewrite Hget
                | rewrite getProp_messageId | rewrite getProp_message
                | rewrite getProp_sender]; simpl).
  destruct rejected; simpl; rewrite Hfile; simpl; by rewrite ?app_nil_r.
Qed.


(** *** Whom the adapter talks to *)

Lemma Map_set_elem {V} (m : list (jsstring * V)) k v x :
  x ∈ Map_set k v m → x = (k, v) ∨ x ∈ m.
Proof.
  induction m as [|[k' v'] m IH]; simpl.
  - rewrite list_elem_of_singleton. auto.
  - destruct (decide (k = k')) as [->|Hne]; rewrite !elem_of_cons; [tauto|].
    intros [->|H]; [tauto|]. destruct (IH H); tauto.
Qed.

Lemma Map_delete_elem {V} (m : list (jsstring * V)) k x :
  x ∈ Map_delete k m → x ∈ m.
Proof. unfold Map_delete. by intros [_ ?]%list_elem_of_filter. Qed.

Lemma evict_elem t entries m x : x ∈ evict t entries m → x ∈ m.
Proof.
  revert m. induction entries as [|[k data] entries IH]; intros m; simpl; [done|].
  intros H%IH. destruct (_ <? _); [by apply Map_delete_elem in H|done].
Qed.

Lemma drain_pending_elem files s x :
  x ∈ pendingMessages (drain JSON_parse files s) → x ∈ pendingMessages s.
Proof.
  revert s. induction files as [|f files IH]; intros s; [done|].
  change (drain JSON_parse (f :: files) s)
    with (drain JSON_parse files (run (processResponseFile JSON_parse f) s)).
  intros H%IH. revert H. unfold run.
  destruct (processResponseFile_step f s)
    as (s1 & -> & _ & _ & _ & [E | (c & k & _ & _ & E)] & _); simpl; rewrite E;
    [done|apply Map_delete_elem].
Qed.

(** What the handler sends and tracks, whatever the text and whatever
    fails. *)
Lemma onText_talks_to_sender ctx r s :
  (sent (run (onText JSON_stringify ctx r) s) = sent s
   ∨ sent (run (onText JSON_stringify ctx r) s) = sent s ++ [reset_reply ctx]
   ∨ sent (run (onText JSON_stringify ctx r) s) = sent s ++ [typing (id (ctx_chat ctx))])
  ∧ (pendingMessages (run (onText JSON_stringify ctx r) s) = pendingMessages s
     ∨ pendingMessages (run (onText JSON_stringify ctx r) s)
       = evict (tenMinutesAgo r)
           (Map_set (newMessageId r) (pendingEntry ctx r) (pendingMessages s))
           (Map_set (newMessageId r) (pendingEntry ctx r) (pendingMessages s))).
Proof. unfold run. exec_onText; simpl; auto. Qed.

Lemma addressed_mono events e c : addressed events c → addressed (events ++ [e]) c.
Proof.
  destruct c as [chat text reply|chat text|chat action]; simpl;
    [intros (ctx & r & Hin & ?)|intros (ctx & r & Hin & ?)..];
    exists ctx, r; (split; [apply elem_of_app; by left|done]).
Qed.

(** The adapter speaks when spoken to: in every history of events and under
    every pattern of failures, each call of the Telegram API that it has
    issued goes to a chat from which a text message has reached the handler,
    and each reply to a pending message quotes a message of that chat that has
    reached the handler. *)
Theorem adapter_speaks_when_spoken_to events :
  Forall (addressed events) (sent (history JSON_parse JSON_stringify events)).
Proof.
  cut (Forall (addressed events) (sent (history JSON_parse JSON_stringify events))
       ∧ ∀ k p, (k, p) ∈ pendingMessages (history JSON_parse JSON_stringify events) →
                known_message events (PendingMessage.chatId p)
                                     (PendingMessage.messageId p)).
  { by intros [? _]. }
  unfold history.
  induction events as [|e events [IHs IHp]] using rev_ind.
  { split; [by apply Forall_nil|]. intros k p Hin. by apply elem_of_nil in Hin. }
  rewrite foldl_app. simpl.
  set (s := foldl (λ s e, react JSON_parse JSON_stringify e s) fresh_state events) in *.
  assert (Forall (addressed (events ++ [e])) (sent s)) as IHs'
    by (eapply Forall_impl; [exact IHs|]; intros c; apply addressed_mono).
  assert (∀ k p, (k, p) ∈ pendingMessages s →
                 known_message (events ++ [e]) (PendingMessage.chatId p)
                               (PendingMessage.messageId p)) as IHp'.
  { intros k p (ctx & r & Hin & ?)%IHp. exists ctx, r.
    split; [apply elem_of_app; by left|done]. }
  destruct e as [ctx r| | |i o f fs]; simpl.
  - assert (Text ctx r ∈ events ++ [Text ctx r]) as Hhere
      by (apply elem_of_app; right; apply list_elem_of_singleton; done).
    destruct (onText_talks_to_sender ctx r s) as [Hsent Hpend]. split.
    + destruct Hsent as [-> | [-> | ->]]; [done|..];
        (apply Forall_app; split; [done|]);
        apply Forall_singleton; exists ctx, r; done.
    + intros k p. destruct Hpend as [-> | ->]; [apply IHp'|].
      intros [[= -> ->] | Hin]%evict_elem%Map_set_elem; [|by apply (IHp' k)].
      exists ctx, r. done.
  - destruct (checkOutgoingQueue_frame s) as (_ & _ & calls & -> & Hr). split.
    + apply Forall_app. split; [done|].
      eapply Forall_impl; [exact Hr|].
      intros c (k & p & text & Hget%Map_get_elem & ->). by apply (IHp' k).
    + intros k p. unfold run. rewrite checkOutgoingQueue_run.
      destruct (hd false (faults s)); simpl; [apply IHp'|].
      intros Hin%drain_pending_elem. by apply (IHp' k).
  - unfold run. rewrite refreshTyping_run. simpl. split; [|done].
    apply Forall_app. split; [done|].
    apply Forall_fmap, Forall_forall. intros [k p] Hin. simpl.
    destruct (IHp' k p Hin) as (ctx & r & ? & ? & _). by exists ctx, r.
  - done.
Qed.

(** *** How the callbacks compose *)

(** Two messages with different ids do not displace each other: after both
    have been queued without failure, the second within ten minutes of the
    first, both queue files are in the incoming directory and both entries
    are in the tracker. *)
Theorem two_messages_both_pending ctx1 r1 ctx2 r2 s :
  match_reset (trim (text (ctx_message ctx1))) = false →
  match_reset (trim (text (ctx_message ctx2))) = false →
  faults s = [] →
  Map_wf (pendingMessages s) →
  newMessageId r1 ≠ newMessageId r2 →
  now_cleanup r1 - 600000 ≤ now_pending r1 →
  now_cleanup r2 - 600000 ≤ now_pending r1 →
  now_cleanup r2 - 600000 ≤ now_pending r2 →
  let both := run (onText JSON_stringify ctx2 r2) (run (onText JSON_stringify ctx1 r1) s) in
  incoming both !! queueFile r1
  = Some (JSON_stringify (QueueData.toJs (queueData ctx1 r1)))
  ∧ incoming both !! queueFile r2
    = Some (JSON_stringify (QueueData.toJs (queueData ctx2 r2)))
  ∧ Map_get (newMessageId r1) (pendingMessages both) = Some (pendingEntry ctx1 r1)
  ∧ Map_get (newMessageId r2) (pendingMessages both) = Some (pendingEntry ctx2 r2).
Proof.
  intros Hm1 Hm2 Hf Hwf Hne Hc1 Hc12 Hc2 both. subst both.
  destruct (onText_queued ctx1 r1 s Hm1 Hf) as (Hin1 & Hpend1 & _ & Hf1).
  set (s1 := run (onText JSON_stringify ctx1 r1) s) in *.
  assert (Map_wf (pendingMessages s1)) as Hwf1
    by (rewrite Hpend1; by apply evict_wf, Map_set_wf).
  assert (Map_get (newMessageId r1) (pendingMessages s1) = Some (pendingEntry ctx1 r1))
    as Hget1.
  { rewrite Hpend1.
    apply evict_keeps; [by apply Map_set_wf|apply Map_get_set_eq|done]. }
  destruct (onText_queued ctx2 r2 s1 Hm2 Hf1) as (Hin2 & Hpend2 & _).
  rewrite Hin2, Hpend2, Hin1.
  assert (queueFile r2 ≠ queueFile r1) as Hfiles.
  { intros Heq%queueFile_inj. congruence. }
  split; [by rewrite lookup_insert_ne, lookup_insert_eq|].
  split; [by rewrite lookup_insert_eq|].
  split.
  - apply evict_keeps; [by apply Map_set_wf| |done].
    by rewrite Map_get_set_ne.
  - apply evict_keeps; [by apply Map_set_wf|apply Map_get_set_eq|done].
Qed.

(** Every promise of the handler is awaited and every promise of the typing
    refresh has a catch: whatever fails, neither leaves a rejection that
    nothing handles. *)
Theorem handler_and_refresh_handle_rejections ctx r s :
  unhandled (run (onText JSON_stringify ctx r) s) = unhandled s
  ∧ unhandled (run refreshTyping s) = unhandled s.
Proof.
  split.
  - unfold run. exec_onText; done.
  - unfold run. by rewrite refreshTyping_run.
Qed.

End Proofs.

(** C8: when the bot token is missing, empty or still the placeholder of the
    sample configuration, the script ends before the bot is constructed or
    launched: the process exits with status 1, and unless it already died
    creating its directories, what it printed is the error about the token.
    Nothing runs after the exit, so nothing is tried again. *)
Theorem missing_token_is_fatal mkdir_failed token :
  token = None ∨ token = Some [] ∨ token = Some (str "your_token_here") →
  ∃ stderr,
    main mkdir_failed token = Exited 1 stderr
    ∧ 1 ≠ 0
    ∧ (mkdir_failed = false →
       stderr = [[Lit (str "ERROR: TELEGRAM_BOT_TOKEN is not set in .env file")]]).
Proof.
  intros Htoken. unfold main. destruct mkdir_failed.
  - eexists. split; [done|]. split; [done|]. done.
  - destruct Htoken as [-> | [-> | ->]].
    + eexists. split; [done|]. done.
    + eexists. split; [done|]. done.
    + change (str "your_token_here")
        with (121%N :: str "our_token_here").
      rewrite decide_True by done. eexists. split; [done|]. done.
Qed.

(** Any other token launches the bot. *)
Lemma configured_token_launches token :
  token ≠ [] → token ≠ str "your_token_here" →
  main false (Some token) = Launched token.
Proof.
  intros Hne Hph. unfold main. destruct token; [done|].
  by rewrite decide_False.
Qed.

(** The bot is launched exactly when the directories could be created and
    the token is set, not empty and not the placeholder, and it is launched
    with that token; in every other case the process exits with status 1. *)
Theorem launch_conditions mkdir_failed token t :
  (main mkdir_failed token = Launched t
   ↔ mkdir_failed = false ∧ token = Some t ∧ t ≠ [] ∧ t ≠ str "your_token_here")
  ∧ ((∀ t', main mkdir_failed token ≠ Launched t') →
     ∃ stderr, main mkdir_failed token = Exited 1 stderr).
Proof.
  unfold main. split.
  - destruct mkdir_failed; [split; [done|by intros [? _]]|].
    destruct token as [[|c token]|]; [split; [done|by intros (_ & [= <-] & ? & _)]| |
                                      split; [done|by intros (_ & ? & _)]].
    destruct (decide (c :: token = str "your_token_here")) as [Heq|Hne].
    + split; [done|]. intros (_ & [= <-] & _ & ?). done.
    + split; [intros [= <-]; done|]. by intros (_ & [= <-] & _).
  - intros Hno. destruct mkdir_failed; [eauto|].
    destruct token as [[|c token]|]; [eauto| |eauto].
    destruct (decide (c :: token = str "your_token_here")); [eauto|].
    by destruct (Hno (c :: token)).
Qed.

(** * The properties on the sample data *)

(** The sample states are states the adapter gets into: Ann writes at the
    epoch, the processor takes her message from the incoming directory and
    answers it (or something else lands in the outgoing directory), and the
    tracker and the files are those of the samples. *)
Lemma sample_states_reachable :
  let arrives (name content : string) :=
    history sample_parse sample_stringify
      [Text (ann "hi") at_epoch; Outside ∅ {[ str name := str content ]} None []] in
  (pendingMessages (arrives "telegram_0_abc.json" "{response to 0_abc}"),
   outgoing (arrives "telegram_0_abc.json" "{response to 0_abc}"))
  = (pendingMessages ann_answered, outgoing ann_answered)
  ∧ (pendingMessages (arrives "telegram_bad.json" "{"),
     outgoing (arrives "telegram_bad.json" "{"))
    = (pendingMessages garbage_arrived, outgoing garbage_arrived)
  ∧ (pendingMessages (arrives "telegram_0_abc.json" "{id 0_abc only}"),
     outgoing (arrives "telegram_0_abc.json" "{id 0_abc only}"))
    = (pendingMessages textless_arrived, outgoing textless_arrived).
Proof. vm_compute. done. Qed.

Lemma reset_bypasses_queue_witness :
  match_reset (text (ctx_message (ann "/Reset"))) = true
  ∧ incoming (run (onText sample_stringify (ann "/Reset") at_epoch) fresh_state) = ∅
  ∧ reset_flag (run (onText sample_stringify (ann "/Reset") at_epoch) fresh_state)
    = Some (str "reset").
Proof.
  destruct (reset_bypasses_queue sample_stringify (ann "/Reset") at_epoch fresh_state)
    as (_ & Hin & _ & Hflag); [reflexivity|].
  split; [reflexivity|]. split; [exact Hin|]. apply Hflag. reflexivity.
Defined.

(** C2 fails on the adapter: Ann's entry is stamped with the epoch and her
    response is polled more than eleven minutes later, no other message having
    arrived in between; the reply is sent to her chat all the same. *)
Lemma stale_entry_still_routes : ¬ stale_entry_never_routes sample_parse.
Proof.
  intros H.
  apply (H ann_answered (str "0_abc") (PendingMessage.mk 42 7 0) 660001
           (str "telegram_0_abc.json") (str "{response to 0_abc}") sample_response
           [SendMessage 42 (JStr (str "hi back")) 7]
           eq_refl eq_refl eq_refl eq_refl eq_refl eq_refl (JStr (str "hi back"))).
  simpl. left.
Qed.

Lemma eviction_on_next_message_witness :
  match_reset (trim (text (ctx_message (bob "hello")))) = false
  ∧ faults ann_waits = []
  ∧ Map_get (str "0_abc")
            (pendingMessages
               (run (onText sample_stringify (bob "hello") eleven_minutes_later)
                    ann_waits))
    ≠ Some (PendingMessage.mk 42 7 0).
Proof.
  destruct (eviction_on_next_message sample_parse sample_stringify (bob "hello")
              eleven_minutes_later ann_waits eq_refl eq_refl) as (Hgone & _).
  split; [reflexivity|]. split; [reflexivity|].
  apply Hgone; reflexivity.
Defined.

(** C3 fails on the adapter: a file of the outgoing directory that is not JSON
    is logged as an error and left where it is, and the next cycle reads it and
    logs the same error again; so is a response that has lost its text, for
    which moreover each cycle calls the API anew and keeps the pending entry.
    Only a document without an id goes the way of a response that nothing
    waits for: a warning, and the file is deleted. *)
Lemma malformed_file_is_kept :
  let bad := (ERROR, [Lit (str "Error processing response file ");
                      Lit (str "telegram_bad.json"); Lit (str ": ");
                      Err SyntaxError]) in
  let once := run (checkOutgoingQueue sample_parse) garbage_arrived in
  let twice := run (checkOutgoingQueue sample_parse) once in
  outgoing once !! str "telegram_bad.json" = Some (str "{")
  ∧ logFile once = [bad]
  ∧ outgoing twice !! str "telegram_bad.json" = Some (str "{")
  ∧ logFile twice = [bad; bad]
  ∧ (let once := run (checkOutgoingQueue sample_parse) textless_arrived in
     let twice := run (checkOutgoingQueue sample_parse) once in
     outgoing twice !! str "telegram_0_abc.json" = Some (str "{id 0_abc only}")
     ∧ pendingMessages twice = pendingMessages textless_arrived
     ∧ sent twice = [SendMessage 42 JUndefined 7; SendMessage 42 JUndefined 7]
     ∧ logFile twice
       = [(ERROR, [Lit (str "Error processing response file ");
                   Lit (str "telegram_0_abc.json"); Lit (str ": "); Err TypeError]);
          (ERROR, [Lit (str "Error processing response file ");
                   Lit (str "telegram_0_abc.json"); Lit (str ": "); Err TypeError])])
  ∧ (let once := run (checkOutgoingQueue sample_parse) empty_object_arrived in
     outgoing once !! str "telegram_0_abc.json" = None
     ∧ logFile once
       = [(WARN, [Lit (str "No pending message for "); Val JUndefined;
                  Lit (str ", cleaning up")])]).
Proof. vm_compute. repeat split. Qed.

Lemma orphan_response_discarded_witness :
  faults orphan_arrived = []
  ∧ own_file (str "telegram_0_abc.json") = true
  ∧ outgoing orphan_arrived !! str "telegram_0_abc.json"
    = Some (str "{response to 0_abc}")
  ∧ sample_parse (str "{response to 0_abc}") = Some (ResponseData.toJs sample_response)
  ∧ Map_get (ResponseData.messageId sample_response) (pendingMessages orphan_arrived)
    = None
  ∧ outgoing (run (checkOutgoingQueue sample_parse) orphan_arrived)
    !! str "telegram_0_abc.json" = None.
Proof.
  destruct (orphan_response_discarded sample_parse orphan_arrived
              (str "telegram_0_abc.json") (str "{response to 0_abc}") sample_response
              eq_refl eq_refl eq_refl eq_refl eq_refl) as (_ & Hgone & _).
  repeat (split; [reflexivity|]). exact Hgone.
Defined.

Lemma matched_response_delivered_witness :
  faults ann_answered = []
  ∧ own_file (str "telegram_0_abc.json") = true
  ∧ outgoing ann_answered !! str "telegram_0_abc.json"
    = Some (str "{response to 0_abc}")
  ∧ sample_parse (str "{response to 0_abc}") = Some (ResponseData.toJs sample_response)
  ∧ Map_get (ResponseData.messageId sample_response) (pendingMessages ann_answered)
    = Some (PendingMessage.mk 42 7 0)
  ∧ SendMessage 42 (JStr (str "hi back")) 7
    ∈ sent (run (checkOutgoingQueue sample_parse) ann_answered).
Proof.
  destruct (matched_response_delivered sample_parse ann_answered
              (str "telegram_0_abc.json") (str "{response to 0_abc}") sample_response
              (PendingMessage.mk 42 7 0)
              eq_refl eq_refl eq_refl eq_refl eq_refl) as (_ & Hcycle).
  repeat (split; [reflexivity|]).
  apply Hcycle. intros g c Hg Hc.
  change (outgoing ann_answered)
    with ({[ str "telegram_0_abc.json" := str "{response to 0_abc}" ]}
          : gmap jsstring jsstring) in Hc.
  apply lookup_singleton_Some in Hc as [Hc _]. congruence.
Defined.

(** C6 fails on the adapter: two different messages handled at the same clock
    reading with the same random suffix get the same id. *)
Lemma message_id_collision : ¬ message_ids_unique.
Proof.
  intros H. apply (H (ann "first") (ann "second") at_epoch at_epoch); [|done].
  intros Heq. discriminate Heq.
Qed.

(** What the collision costs: the second message overwrites the queue file
    and the pending entry of the first. *)
Lemma colliding_ids_overwrite :
  let s := run (onText sample_stringify (ann "second") at_epoch)
               (run (onText sample_stringify (ann "first") at_epoch) fresh_state) in
  map_to_list (incoming s) = [(str "telegram_0_abc.json", str "Ann: second")]
  ∧ length (pendingMessages s) = 1%nat.
Proof. vm_compute. done. Qed.

(** A clock set forward by more than ten minutes between the two readings: the
    message is queued, its entry is evicted by the handler's own clean-up, and
    the response is discarded unsent. *)
Lemma clock_jump_drops_entry :
  let queued := run (onText sample_stringify (ann "hi") clock_jumps) fresh_state in
  let answered :=
    set_outgoing {[ str "telegram_0_abc.json" := str "{response to 0_abc}" ]} queued in
  is_Some (incoming queued !! str "telegram_0_abc.json")
  ∧ pendingMessages queued = []
  ∧ sent (run (checkOutgoingQueue sample_parse) answered) = sent queued.
Proof. vm_compute. split; [eauto|done]. Qed.

(** A write of the queue file that fails on the way leaves the beginning of
    the entry in the incoming directory and nothing in the tracker. *)
Lemma failed_write_leaves_a_part :
  let s := run (onText sample_stringify (ann "hi") at_epoch) (disk_fills_up fresh_state) in
  incoming s !! str "telegram_0_abc.json" = Some (str "Ann")
  ∧ pendingMessages s = [].
Proof. vm_compute. done. Qed.

Lemma message_queued_under_id_witness :
  match_reset (trim (text (ctx_message (ann "hi")))) = false
  ∧ faults fresh_state = []
  ∧ Map_wf (pendingMessages fresh_state)
  ∧ Map_get (str "0_abc")
            (pendingMessages (run (onText sample_stringify (ann "hi") at_epoch)
                                  fresh_state))
    = Some (PendingMessage.mk 42 7 0)
  ∧ Map_get (str "0_abc")
            (pendingMessages (run (onText sample_stringify (ann "hi") clock_jumps)
                                  fresh_state))
    = None.
Proof.
  assert (Map_wf (pendingMessages fresh_state)) as Hwf by apply NoDup_nil_2.
  destruct (message_queued_under_id sample_stringify (ann "hi") at_epoch fresh_state
              eq_refl eq_refl Hwf) as (_ & _ & Hget & _).
  destruct (message_queued_under_id sample_stringify (ann "hi") clock_jumps fresh_state
              eq_refl eq_refl Hwf) as (_ & _ & Hjump & _).
  split; [reflexivity|]. split; [reflexivity|]. split; [exact Hwf|].
  split; [exact Hget|exact Hjump].
Defined.

(** C7 fails on the adapter: with Ann's message pending and the Telegram API
    failing, the typing refresh leaves the log as it is. *)
Lemma failed_refresh_is_silent : ¬ platform_errors_logged.
Proof.
  intros H. by apply (H (telegram_down ann_waits)).
Qed.

Lemma platform_errors_contained_witness :
  match_reset (trim (text (ctx_message (bob "hello")))) = false
  ∧ hd false (faults (telegram_down fresh_state)) = true
  ∧ incoming (run (onText sample_stringify (bob "hello") at_epoch)
                  (telegram_down fresh_state)) = ∅
  ∧ logFile (run refreshTyping (telegram_down ann_waits)) = [].
Proof.
  destruct (platform_errors_contained sample_stringify (bob "hello")
              at_epoch (telegram_down fresh_state))
    as (_ & _ & _ & _ & Htyping & _).
  destruct (Htyping eq_refl eq_refl) as (Hin & _).
  destruct (platform_errors_contained sample_stringify (bob "hello")
              at_epoch (telegram_down ann_waits))
    as (_ & _ & Hlog & _).
  split; [reflexivity|]. split; [reflexivity|]. split; [exact Hin|exact Hlog].
Defined.

Lemma missing_token_is_fatal_witness :
  (@None jsstring = None ∨ @None jsstring = Some []
   ∨ @None jsstring = Some (str "your_token_here"))
  ∧ ∃ stderr, main false None = Exited 1 stderr.
Proof.
  assert (@None jsstring = None ∨ @None jsstring = Some []
          ∨ @None jsstring = Some (str "your_token_here")) as Htoken by (left; reflexivity).
  destruct (missing_token_is_fatal false None Htoken) as (stderr & Hexit & _).
  split; [exact Htoken|]. exists stderr. exact Hexit.
Defined.

(** * The further properties on the sample data *)

Lemma padded_reset_is_reset_witness :
  text (ctx_message (ann "  /reset ")) = str "  " ++ str "/reset" ++ str " "
  ∧ match_reset (str "/reset") = true
  ∧ incoming (run (onText sample_stringify (ann "  /reset ") at_epoch) ann_waits) = ∅
  ∧ reset_flag (run (onText sample_stringify (ann "  /reset ") at_epoch) ann_waits)
    = Some (str "reset").
Proof.
  assert (Forall (λ c, isWhiteSpace c = true) (str "  ")) as Hpre
    by (repeat constructor).
  assert (Forall (λ c, isWhiteSpace c = true) (str " ")) as Hpost
    by (repeat constructor).
  destruct (padded_reset_is_reset sample_stringify (ann "  /reset ") at_epoch ann_waits
              (str "  ") (str "/reset") (str " ") eq_refl eq_refl Hpre Hpost)
    as (Hin & _ & Hflag).
  split; [reflexivity|]. split; [reflexivity|]. split; [exact Hin|].
  apply Hflag. reflexivity.
Defined.

Lemma tracker_after_message_witness :
  match_reset (trim (text (ctx_message (bob "hello")))) = false
  ∧ faults ann_waits = []
  ∧ Map_wf (pendingMessages ann_waits)
  ∧ Map_get (str "0_abc")
            (pendingMessages
               (run (onText sample_stringify (bob "hello") a_second_later) ann_waits))
    = Some (PendingMessage.mk 42 7 0).
Proof.
  assert (Map_wf (pendingMessages ann_waits)) as Hwf.
  { apply NoDup_cons. split; [apply not_elem_of_nil|apply NoDup_nil_2]. }
  split; [reflexivity|]. split; [reflexivity|]. split; [exact Hwf|].
  apply (tracker_after_message sample_stringify (bob "hello") a_second_later ann_waits
           (str "0_abc") (PendingMessage.mk 42 7 0) eq_refl eq_refl Hwf).
  split; [vm_compute; discriminate|].
  right. split; [vm_compute; discriminate|reflexivity].
Defined.

Lemma unwritten_message_is_not_tracked_witness :
  match_reset (trim (text (ctx_message (ann "hi")))) = false
  ∧ faults (disk_fills_up fresh_state) = false :: true :: [true; true; true; true]
  ∧ pendingMessages (run (onText sample_stringify (ann "hi") at_epoch)
                         (disk_fills_up fresh_state)) = []
  ∧ incoming (run (onText sample_stringify (ann "hi") at_epoch)
                  (disk_fills_up fresh_state)) !! str "telegram_1000_xyz.json" = None.
Proof.
  destruct (unwritten_message_is_not_tracked sample_stringify (ann "hi") at_epoch
              (disk_fills_up fresh_state) [true; true; true; true] eq_refl eq_refl)
    as (Hpend & _ & _ & Hother & _).
  split; [reflexivity|]. split; [reflexivity|]. split; [exact Hpend|].
  rewrite Hother; [reflexivity|]. vm_compute. discriminate.
Defined.

Lemma unwritten_reset_is_not_confirmed_witness :
  match_reset (trim (text (ctx_message (ann "/reset")))) = true
  ∧ hd false (faults (telegram_down fresh_state)) = true
  ∧ sent (run (onText sample_stringify (ann "/reset") at_epoch)
              (telegram_down fresh_state)) = []
  ∧ pendingMessages (run (onText sample_stringify (ann "/reset") at_epoch)
                         (telegram_down fresh_state)) = [].
Proof.
  destruct (unwritten_reset_is_not_confirmed sample_stringify (ann "/reset") at_epoch
              (telegram_down fresh_state) eq_refl eq_refl) as (Hsent & _ & _ & Hpend & _).
  split; [reflexivity|]. split; [reflexivity|]. split; [exact Hsent|exact Hpend].
Defined.

Lemma other_queue_files_untouched_witness :
  (now_id at_epoch ≠ now_id a_second_later
   ∨ random_suffix at_epoch ≠ random_suffix a_second_later)
  ∧ incoming (run (onText sample_stringify (bob "hello") a_second_later)
                  (run (onText sample_stringify (ann "hi") at_epoch) fresh_state))
    !! queueFile at_epoch
    = incoming (run (onText sample_stringify (ann "hi") at_epoch) fresh_state)
      !! queueFile at_epoch.
Proof.
  assert (now_id at_epoch ≠ now_id a_second_later
          ∨ random_suffix at_epoch ≠ random_suffix a_second_later) as Hdiff
    by (left; vm_compute; discriminate).
  destruct (other_queue_files_untouched sample_stringify (bob "hello") a_second_later
              (run (onText sample_stringify (ann "hi") at_epoch) fresh_state)
              at_epoch Hdiff) as (Hsame & _).
  split; [exact Hdiff|exact Hsame].
Defined.

Lemma poll_leaves_foreign_files_witness :
  own_file (str "discord_D1.json") = false
  ∧ outgoing (run (checkOutgoingQueue sample_parse) discord_beside)
    !! str "discord_D1.json"
    = outgoing discord_beside !! str "discord_D1.json".
Proof.
  split; [reflexivity|].
  apply (poll_leaves_foreign_files sample_parse discord_beside (str "discord_D1.json")).
  reflexivity.
Defined.

Lemma reply_round_trip_witness :
  match_reset (trim (text (ctx_message (ann "hi")))) = false
  ∧ ResponseData.messageId sample_response = newMessageId at_epoch
  ∧ SendMessage 42 (JStr (str "hi back")) 7
    ∈ sent (run (checkOutgoingQueue sample_parse)
                (set_outgoing
                   {[ str "telegram_0_abc.json" := str "{response to 0_abc}" ]}
                   (run (onText sample_stringify (ann "hi") at_epoch) fresh_state))).
Proof.
  split; [reflexivity|]. split; [reflexivity|].
  apply (reply_round_trip sample_parse sample_stringify (ann "hi") at_epoch fresh_state
           (set_outgoing {[ str "telegram_0_abc.json" := str "{response to 0_abc}" ]}
              (run (onText sample_stringify (ann "hi") at_epoch) fresh_state))
           (str "telegram_0_abc.json") (str "{response to 0_abc}") sample_response);
    try reflexivity.
  - apply NoDup_nil_2.
  - vm_compute. discriminate.
  - intros g c Hg Hc.
    change (outgoing (set_outgoing _ _))
      with ({[ str "telegram_0_abc.json" := str "{response to 0_abc}" ]}
            : gmap jsstring jsstring) in Hc.
    apply lookup_singleton_Some in Hc as [Hc _]. congruence.
Defined.

Lemma send_outcome_ignored_witness :
  faults (set_faults [false; true; false] ann_answered) = [false; true; false]
  ∧ outgoing (run (processResponseFile sample_parse (str "telegram_0_abc.json"))
                  (set_faults [false; true; false] ann_answered)) = ∅
  ∧ unhandled (run (processResponseFile sample_parse (str "telegram_0_abc.json"))
                   (set_faults [false; true; false] ann_answered))
    = [SendMessage 42 (JStr (str "hi back")) 7].
Proof.
  destruct (send_outcome_ignored sample_parse (str "telegram_0_abc.json")
              (set_faults [false; true; false] ann_answered)
              (str "{response to 0_abc}") sample_response (PendingMessage.mk 42 7 0)
              true [] eq_refl eq_refl eq_refl eq_refl)
    as (_ & _ & _ & _ & Hout & Hun).
  split; [reflexivity|]. split; [|exact Hun].
  rewrite Hout. apply delete_singleton_eq.
Defined.


Lemma two_messages_both_pending_witness :
  newMessageId at_epoch ≠ newMessageId a_second_later
  ∧ Map_get (str "0_abc")
            (pendingMessages
               (run (onText sample_stringify (bob "hello") a_second_later)
                    (run (onText sample_stringify (ann "hi") at_epoch) fresh_state)))
    = Some (PendingMessage.mk 42 7 0)
  ∧ Map_get (str "1000_xyz")
            (pendingMessages
               (run (onText sample_stringify (bob "hello") a_second_later)
                    (run (onText sample_stringify (ann "hi") at_epoch) fresh_state)))
    = Some (PendingMessage.mk (-100) 8 1000).
Proof.
  assert (newMessageId at_epoch ≠ newMessageId a_second_later) as Hne
    by (vm_compute; discriminate).
  destruct (two_messages_both_pending sample_stringify (ann "hi") at_epoch
              (bob "hello") a_second_later fresh_state eq_refl eq_refl eq_refl
              NoDup_nil_2 Hne
              ltac:(vm_compute; discriminate) ltac:(vm_compute; discriminate)
              ltac:(vm_compute; discriminate))
    as (_ & _ & Hfirst & Hsecond).
  split; [exact Hne|]. split; [exact Hfirst|exact Hsecond].
Defined.
